(** * A logging HTTP endpoint (flask-app/app.py)

    The program is one Flask view, [home], registered on the rule ["/"] for
    the methods GET and POST.  It writes two or three records through the
    root logger and returns a constant JSON acknowledgement.

    The view itself is a few lines, so what it does is decided almost
    entirely by the library calls it makes.  Each of them is modelled by a
    definition that carries the name of the library function it follows:

    - [Str]       Python [str] and the string methods used on the way;
    - [Utf8]      [bytes.decode] for UTF-8, with the [errors] argument;
    - [Logging]   the root logger, [basicConfig], [info], stream handlers;
    - [Werkzeug]  the WSGI environment built by the development server,
                  [EnvironHeaders], [Request.get_data];
    - [Flask]     rules, routing, dispatch, response construction;
    - [App]       the source file itself;
    - [Spec]      the words of the specification: the records, the logged
                  output, the acknowledgement.

    The models stop where the view stops looking: a request is its method
    and path as [request.method] and [request.path] give them, its header
    fields as the server received them, and its body.  The definitions come
    first, the lemmas about the libraries after them, and the properties of
    the application, one per claim of the specification, at the end. *)

From Stdlib Require Import List String Ascii Arith NArith Bool Lia.
From Stdlib Require Strings.Byte.
Import ListNotations.

Local Open Scope N_scope.
Local Open Scope list_scope.

(* ------------------------------------------------------------------ *)
(** * Python strings *)

Module Str.

(** A Python [str] is a sequence of code points. *)
Definition text := list N.

(** Strings that come out of the WSGI environment (header names and values,
    the request method) are "native strings": every code point is below 256.
    They are kept in the type [string], one character per code point. *)
Definition py (s : string) : text :=
  map N_of_ascii (list_ascii_of_string s).

(** [needle in hay] *)
Fixpoint startswith (hay needle : text) {struct needle} : bool :=
  match needle, hay with
  | [], _ => true
  | _ :: _, [] => false
  | a :: needle', b :: hay' => (a =? b) && startswith hay' needle'
  end.

Fixpoint contains (hay needle : text) : bool :=
  startswith hay needle ||
  match hay with
  | [] => false
  | _ :: hay' => contains hay' needle
  end.

(** The same relation on native strings, as a proposition. *)
Definition occurs_in (needle hay : string) : Prop :=
  exists pre post, hay = (pre ++ needle ++ post)%string.

(** ** Methods of [str] used on header names

    The HTTP parser of the standard library admits only the printable ASCII
    characters other than the colon in a field name, and on ASCII the
    definitions below are Python's.  Characters from 128 on are left as they
    are. *)

Definition is_lower (c : ascii) : bool :=
  (97 <=? N_of_ascii c) && (N_of_ascii c <=? 122).

Definition is_upper (c : ascii) : bool :=
  (65 <=? N_of_ascii c) && (N_of_ascii c <=? 90).

Definition is_cased (c : ascii) : bool := is_lower c || is_upper c.

Definition upper_char (c : ascii) : ascii :=
  if is_lower c then ascii_of_N (N_of_ascii c - 32) else c.

Definition lower_char (c : ascii) : ascii :=
  if is_upper c then ascii_of_N (N_of_ascii c + 32) else c.

(** [s.upper()] *)
Fixpoint upper (s : string) : string :=
  match s with
  | EmptyString => EmptyString
  | String c s' => String (upper_char c) (upper s')
  end.

(** [s.title()]: the first cased character of every run of cased characters
    is upper-cased, the others are lower-cased. *)
Fixpoint title_from (previous_is_cased : bool) (s : string) : string :=
  match s with
  | EmptyString => EmptyString
  | String c s' =>
      String (if previous_is_cased then lower_char c else upper_char c)
             (title_from (is_cased c) s')
  end.

Definition title (s : string) : string := title_from false s.

(** [s.replace(old, new)] for one-character [old] and [new]. *)
Fixpoint replace_char (old new : ascii) (s : string) : string :=
  match s with
  | EmptyString => EmptyString
  | String c s' =>
      String (if Ascii.eqb c old then new else c) (replace_char old new s')
  end.

(** [s.replace("\r\n", "")] *)
Fixpoint remove_crlf (s : string) : string :=
  match s with
  | EmptyString => EmptyString
  | String c s' =>
      match s' with
      | String c' s'' =>
          if Ascii.eqb c "013" && Ascii.eqb c' "010"
          then remove_crlf s''
          else String c (remove_crlf s')
      | EmptyString => String c EmptyString
      end
  end.

(** [c in s] for a character [c] *)
Fixpoint has_char (c : ascii) (s : string) : bool :=
  match s with
  | EmptyString => false
  | String c' s' => Ascii.eqb c' c || has_char c s'
  end.

(** [s[n:]] *)
Fixpoint drop (n : nat) (s : string) : string :=
  match n, s with
  | O, _ => s
  | S _, EmptyString => EmptyString
  | S n', String _ s' => drop n' s'
  end.

(** [sep.join(parts)] *)
Fixpoint join (sep : string) (parts : list string) : string :=
  match parts with
  | [] => EmptyString
  | [p] => p
  | p :: rest => (p ++ sep ++ join sep rest)%string
  end.

(** ** Methods of [str] used on header values

    A header value may hold any code point below 256, and the definitions
    below are Python's on all of them. *)

(** [c.lower()]: beyond ASCII, Latin-1 has the capital letters from 192 to
    222, without the multiplication sign (215). *)
Definition to_lower (c : ascii) : ascii :=
  let n := N_of_ascii c in
  if is_upper c || ((192 <=? n) && (n <=? 222) && negb (n =? 215))
  then ascii_of_N (n + 32) else c.

(** [s.lower()] *)
Fixpoint lower (s : string) : string :=
  match s with
  | EmptyString => EmptyString
  | String c s' => String (to_lower c) (lower s')
  end.

(** [c.isspace()]: the ASCII white space, the four separators from 28 to
    31, NEL (133) and the no-break space (160). *)
Definition is_space (c : ascii) : bool :=
  let n := N_of_ascii c in
  ((9 <=? n) && (n <=? 13)) || ((28 <=? n) && (n <=? 32))
  || (n =? 133) || (n =? 160).

(** A string without the characters of a kind at its left end, and at its
    right end. *)
Fixpoint lstrip (kind : ascii -> bool) (s : string) : string :=
  match s with
  | EmptyString => EmptyString
  | String c s' => if kind c then lstrip kind s' else s
  end.

Fixpoint rstrip (kind : ascii -> bool) (s : string) : string :=
  match s with
  | EmptyString => EmptyString
  | String c s' =>
      match rstrip kind s' with
      | EmptyString => if kind c then EmptyString else String c EmptyString
      | rest => String c rest
      end
  end.

(** [s.strip()] *)
Definition strip (s : string) : string := lstrip is_space (rstrip is_space s).

(** [s.split(sep)] for a one-character [sep] *)
Fixpoint split (sep : ascii) (s : string) : list string :=
  match s with
  | EmptyString => [EmptyString]
  | String c s' =>
      if Ascii.eqb c sep then EmptyString :: split sep s'
      else
        match split sep s' with
        | part :: parts => String c part :: parts
        | [] => [String c EmptyString]
        end
  end.

(** ** [int] of a string

    [digit_value] is CPython's table of digit values, up to base 16. *)
Definition digit_value (c : ascii) : option N :=
  let n := N_of_ascii c in
  if (48 <=? n) && (n <=? 57) then Some (n - 48)
  else if (97 <=? n) && (n <=? 102) then Some (n - 87)
  else if (65 <=? n) && (n <=? 70) then Some (n - 55)
  else None.

(** The digits of a number in a base, with single underscores between
    them; [None] stands for the [ValueError]. *)
Fixpoint digits (base acc : N) (after_underscore : bool) (s : string)
  : option N :=
  match s with
  | EmptyString => if after_underscore then None else Some acc
  | String c s' =>
      if Ascii.eqb c "_" then
        if after_underscore then None else digits base acc true s'
      else
        match digit_value c with
        | Some d => if d <? base then digits base (base * acc + d) false s'
                    else None
        | None => None
        end
  end.

(** The white space that [int] leaves out around a number: that of
    [isspace] without the four separators from 28 to 31. *)
Definition is_int_space (c : ascii) : bool :=
  is_space c && negb ((28 <=? N_of_ascii c) && (N_of_ascii c <=? 31)).

(** [int(s, 16)]: white space around the number, a sign, the prefix [0x]
    with one underscore after it, then the digits.  The result is the sign
    (true for minus) and the magnitude. *)
Definition int_16 (s : string) : option (bool * N) :=
  let s := lstrip is_int_space (rstrip is_int_space s) in
  let (negative, s) :=
    match s with
    | String c s' =>
        if Ascii.eqb c "+" then (false, s')
        else if Ascii.eqb c "-" then (true, s')
        else (false, s)
    | EmptyString => (false, s)
    end in
  let s :=
    match s with
    | String c (String x s') =>
        if Ascii.eqb c "0" && (Ascii.eqb x "x" || Ascii.eqb x "X") then
          match s' with
          | String u s'' => if Ascii.eqb u "_" then s'' else s'
          | EmptyString => s'
          end
        else s
    | _ => s
    end in
  match s with
  | EmptyString => None
  | String c _ =>
      if Ascii.eqb c "_" then None
      else option_map (pair negative) (digits 16 0 false s)
  end.

(** [re.fullmatch(r"\d+", s, re.ASCII)] *)
Fixpoint all_digits (s : string) : bool :=
  match s with
  | EmptyString => true
  | String c s' =>
      (48 <=? N_of_ascii c) && (N_of_ascii c <=? 57) && all_digits s'
  end.

(** [int(s)] for a string of decimal digits *)
Fixpoint decimal (acc : N) (s : string) : N :=
  match s with
  | EmptyString => acc
  | String c s' => decimal (10 * acc + (N_of_ascii c - 48)) s'
  end.

(** ** [repr] of a native string

    CPython's [unicode_repr]: the value is quoted with ['], or with ["] when
    it holds a [']  and no ["]; the quote in use and the backslash are
    escaped, tab, line feed and carriage return have letter escapes, every
    other character that is not printable is written as a two-digit
    hexadecimal escape. *)

Definition single_quote : ascii := "039".
Definition double_quote : ascii := "034".
Definition backslash : ascii := "092".

(** [str.isprintable] on one code point below 256: the ASCII range from the
    space to the tilde, and the Latin-1 range from 161 on without the soft
    hyphen (173). *)
Definition is_printable (c : ascii) : bool :=
  let n := N_of_ascii c in
  ((32 <=? n) && (n <=? 126)) || ((161 <=? n) && negb (n =? 173)).

Definition hex_digit (n : N) : ascii :=
  if n <? 10 then ascii_of_N (48 + n) else ascii_of_N (87 + n).

Definition escape (quote c : ascii) : string :=
  if Ascii.eqb c quote || Ascii.eqb c backslash then
    String backslash (String c EmptyString)
  else if Ascii.eqb c "009" then String backslash "t"
  else if Ascii.eqb c "010" then String backslash "n"
  else if Ascii.eqb c "013" then String backslash "r"
  else if is_printable c then String c EmptyString
  else
    String backslash
      (String "x"
         (String (hex_digit (N_of_ascii c / 16))
            (String (hex_digit (N_of_ascii c mod 16)) EmptyString))).

Fixpoint escape_all (quote : ascii) (s : string) : string :=
  match s with
  | EmptyString => EmptyString
  | String c s' => (escape quote c ++ escape_all quote s')%string
  end.

Definition quote_for (s : string) : ascii :=
  if has_char single_quote s && negb (has_char double_quote s)
  then double_quote else single_quote.

Definition repr (s : string) : string :=
  let q := quote_for s in
  String q (escape_all q s ++ String q EmptyString).

(** A string that [repr] writes as it is, whichever quote is in use. *)
Definition plain (s : string) : Prop :=
  (escape_all single_quote s = s /\ escape_all double_quote s = s)%string.

End Str.

(* ------------------------------------------------------------------ *)
(** * Exceptions *)

(** The exceptions that can be raised while a request is served: three of
    Python's own, and the HTTP exceptions of Werkzeug. *)
Inductive exn : Type :=
| UnicodeDecodeError
| KeyError
| OSError
| NotFound
| MethodNotAllowed
| RequestRedirect
| WebsocketMismatch
| ClientDisconnected.

(** [HTTPException.code]: the status that answers an HTTP exception.
    [WebsocketMismatch] and [ClientDisconnected] are kinds of [BadRequest];
    the redirect that routing raises has the code 308. *)
Definition code (e : exn) : option N :=
  match e with
  | NotFound => Some 404
  | MethodNotAllowed => Some 405
  | RequestRedirect => Some 308
  | WebsocketMismatch => Some 400
  | ClientDisconnected => Some 400
  | UnicodeDecodeError | KeyError | OSError => None
  end.

(** The result of a call that may raise. *)
Definition result (A : Type) : Type := (exn + A)%type.

(** A result that is not an exception. *)
Definition returns {A} (r : result A) : Prop := exists a, r = inr a.

(* ------------------------------------------------------------------ *)
(** * UTF-8 decoding *)

Module Utf8.

Import Str.

(** The [errors] argument of [bytes.decode]. *)
Inductive errors : Type := strict | replace.

Definition REPLACEMENT_CHARACTER : N := 0xFFFD.

(** IS_CONTINUATION_BYTE *)
Definition is_continuation (ch : N) : bool := (0x80 <=? ch) && (ch <? 0xC0).

(** A decoded code point in front of the rest of the output. *)
Definition emit (ch : N) (rest : result text) : result text :=
  match rest with
  | inr t => inr (ch :: t)
  | inl e => inl e
  end.

(** An undecodable run of bytes: [strict] raises, [replace] writes U+FFFD
    in its place and carries on after it. *)
Definition on_error (e : errors) (rest : result text) : result text :=
  match e with
  | strict => inl UnicodeDecodeError
  | replace => emit REPLACEMENT_CHARACTER rest
  end.

(** CPython's decoder ([utf8_decode] in stringlib/codecs.h, driven by
    [unicode_decode_utf8]).  An invalid start byte is an error of one byte;
    an invalid continuation byte ends the error before that byte, which is
    then decoded afresh; a sequence cut short by the end of the input is one
    error up to the end. *)
Fixpoint decode_from (e : errors) (s : list N) {struct s} : result text :=
  match s with
  | [] => inr []
  | ch :: s1 =>
    if ch <? 0x80 then emit ch (decode_from e s1)
    else if ch <? 0xC2 then on_error e (decode_from e s1)
    else if ch <? 0xE0 then
      match s1 with
      | [] => on_error e (inr [])
      | ch2 :: s2 =>
        if is_continuation ch2
        then emit (N.shiftl ch 6 + ch2 - (N.shiftl 0xC0 6 + 0x80))
                  (decode_from e s2)
        else on_error e (decode_from e s1)
      end
    else if ch <? 0xF0 then
      match s1 with
      | [] => on_error e (inr [])
      | ch2 :: s2 =>
        if negb (is_continuation ch2)
           || (if ch2 <? 0xA0 then ch =? 0xE0 else ch =? 0xED)
        then on_error e (decode_from e s1)
        else
          match s2 with
          | [] => on_error e (inr [])
          | ch3 :: s3 =>
            if is_continuation ch3
            then emit (N.shiftl ch 12 + N.shiftl ch2 6 + ch3
                       - (N.shiftl 0xE0 12 + N.shiftl 0x80 6 + 0x80))
                      (decode_from e s3)
            else on_error e (decode_from e s2)
          end
      end
    else if ch <? 0xF5 then
      match s1 with
      | [] => on_error e (inr [])
      | ch2 :: s2 =>
        if negb (is_continuation ch2)
           || (if ch2 <? 0x90 then ch =? 0xF0 else ch =? 0xF4)
        then on_error e (decode_from e s1)
        else
          match s2 with
          | [] => on_error e (inr [])
          | ch3 :: s3 =>
            if negb (is_continuation ch3)
            then on_error e (decode_from e s2)
            else
              match s3 with
              | [] => on_error e (inr [])
              | ch4 :: s4 =>
                if is_continuation ch4
                then emit (N.shiftl ch 18 + N.shiftl ch2 12
                           + N.shiftl ch3 6 + ch4
                           - (N.shiftl 0xF0 18 + N.shiftl 0x80 12
                              + N.shiftl 0x80 6 + 0x80))
                          (decode_from e s4)
                else on_error e (decode_from e s3)
              end
          end
      end
    else on_error e (decode_from e s1)
  end.

(** [data.decode("utf-8", errors)] *)
Definition decode (e : errors) (data : list Byte.byte) : result text :=
  decode_from e (map Byte.to_N data).

(** [s.encode("ascii")] for a literal of the source. *)
Definition bytes_of (s : string) : list Byte.byte := list_byte_of_string s.

End Utf8.

(* ------------------------------------------------------------------ *)
(** * Python dictionaries of strings *)

Module Dict.

Import Str.

(** A [dict] from [str] to [str].  Iteration and [repr] go by insertion
    order, so the entries are kept as a list; the operations keep at most
    one entry per key. *)
Definition dict := list (string * string).

(** [d.get(k)]: the value, or [None]. *)
Fixpoint get (d : dict) (k : string) : option string :=
  match d with
  | [] => None
  | (k', v) :: d' => if String.eqb k' k then Some v else get d' k
  end.

(** [d[k] = v]: a key already there keeps its place. *)
Fixpoint set (d : dict) (k v : string) : dict :=
  match d with
  | [] => [(k, v)]
  | (k', v') :: d' =>
      if String.eqb k' k then (k', v) :: d' else (k', v') :: set d' k v
  end.

(** [repr(d)] *)
Definition repr_item (kv : string * string) : string :=
  (repr (fst kv) ++ ": " ++ repr (snd kv))%string.

Definition repr_dict (d : dict) : string :=
  ("{" ++ join ", " (map repr_item d) ++ "}")%string.

End Dict.

(* ------------------------------------------------------------------ *)
(** * The process: standard streams and the logging module *)

Module Logging.

Import Str Dict.

(** [sys.stdout] and [sys.stderr]. *)
Inductive stream : Type := stdout | stderr.

Definition NOTSET : N := 0.
Definition INFO : N := 20.
Definition WARNING : N := 30.
Definition ERROR : N := 40.

(** A [StreamHandler]: the level from which it takes records and the stream
    it writes to.  Every handler here formats with [BASIC_FORMAT]. *)
Record Handler : Type := { h_level : N; h_stream : stream }.

Record Logger : Type := { level : N; handlers : list Handler }.

(** The state a request can observe or change: what has been written to the
    two standard streams, one element per call of [write], and the root
    logger. *)
Record process : Type := {
  sys_stdout : list text;
  sys_stderr : list text;
  root : Logger
}.

(** The interpreter at start: nothing written, the root logger at WARNING
    with no handler. *)
Definition fresh : process :=
  {| sys_stdout := []; sys_stderr := [];
     root := {| level := WARNING; handlers := [] |} |}.

Definition written (s : stream) (p : process) : list text :=
  match s with
  | stdout => sys_stdout p
  | stderr => sys_stderr p
  end.

(** [stream.write(chunk)] *)
Definition write (s : stream) (chunk : text) (p : process) : process :=
  match s with
  | stdout =>
      {| sys_stdout := sys_stdout p ++ [chunk];
         sys_stderr := sys_stderr p; root := root p |}
  | stderr =>
      {| sys_stdout := sys_stdout p;
         sys_stderr := sys_stderr p ++ [chunk]; root := root p |}
  end.

(** [StreamHandler(stream)]: "If stream is not specified, sys.stderr is
    used." *)
Definition StreamHandler (s : option stream) : Handler :=
  {| h_level := NOTSET;
     h_stream := match s with Some s => s | None => stderr end |}.

(** [logging.basicConfig(level=..., stream=...)]: does nothing when the root
    logger has a handler; otherwise adds a stream handler and sets the level
    when one is given. *)
Definition basicConfig (lvl : option N) (s : option stream) (p : process)
  : process :=
  match handlers (root p) with
  | _ :: _ => p
  | [] =>
      {| sys_stdout := sys_stdout p;
         sys_stderr := sys_stderr p;
         root := {| level := match lvl with
                             | Some l => l
                             | None => level (root p)
                             end;
                    handlers := [StreamHandler s] |} |}
  end.

(** The arguments of a logging call: strings and dictionaries. *)
Inductive value : Type :=
| VStr (s : text)
| VDict (d : dict).

(** [str(v)] *)
Definition str (v : value) : text :=
  match v with
  | VStr s => s
  | VDict d => py (repr_dict d)
  end.

(** [fmt % args] for the conversions [%s] and [%%].  [None] stands for the
    [TypeError] of a wrong number of arguments and for any other
    conversion. *)
Fixpoint percent (fmt : string) (args : list value) : option text :=
  match fmt with
  | EmptyString =>
      match args with
      | [] => Some []
      | _ :: _ => None
      end
  | String c fmt' =>
      if Ascii.eqb c "%" then
        match fmt' with
        | EmptyString => None
        | String c' fmt'' =>
            if Ascii.eqb c' "s" then
              match args with
              | [] => None
              | a :: args' =>
                  option_map (app (str a)) (percent fmt'' args')
              end
            else if Ascii.eqb c' "%" then
              option_map (cons (N_of_ascii c')) (percent fmt'' args)
            else None
        end
      else option_map (cons (N_of_ascii c)) (percent fmt' args)
  end.

(** [BASIC_FORMAT % record]: level name, logger name and message, with
    colons between them. *)
Definition format (levelname name : string) (message : text) : text :=
  py levelname ++ py ":" ++ py name ++ py ":" ++ message.

(** [StreamHandler.terminator] *)
Definition terminator : text := [10].

(** A record on its way to the handlers. *)
Record LogRecord : Type := {
  levelno : N;
  levelname : string;
  name : string;
  msg : string;
  args : list value
}.

(** [StreamHandler.emit]: the formatted record and the terminator go out in
    one [write].  A record whose message cannot be formatted goes to
    [handleError], which reports on [sys.stderr] instead of raising (the
    report is a traceback, of which only the first line is kept here). *)
Definition emit (h : Handler) (r : LogRecord) (p : process) : process :=
  match percent (msg r) (args r) with
  | Some message =>
      write (h_stream h)
            (format (levelname r) (name r) message ++ terminator) p
  | None => write stderr (py "--- Logging error ---" ++ terminator) p
  end.

(** [Logger.callHandlers]: every handler whose level the record reaches. *)
Fixpoint callHandlers (hs : list Handler) (r : LogRecord) (p : process)
  : process :=
  match hs with
  | [] => p
  | h :: hs' =>
      callHandlers hs' r (if h_level h <=? levelno r then emit h r p else p)
  end.

(** A record handed to the root logger, by the logger itself or by a child
    that propagates: dropped below the root's level. *)
Definition log (r : LogRecord) (p : process) : process :=
  if level (root p) <=? levelno r
  then callHandlers (handlers (root p)) r p
  else p.

(** [logging.info(msg, *args)]: configures the root logger first when it has
    no handler. *)
Definition info (msg : string) (args : list value) (p : process) : process :=
  let p :=
    match handlers (root p) with
    | [] => basicConfig None None p
    | _ :: _ => p
    end in
  log {| levelno := INFO; levelname := "INFO"; name := "root";
         msg := msg; args := args |} p.

End Logging.

(* ------------------------------------------------------------------ *)
(** * Calls that read and change the process and may raise *)

Definition M (A : Type) : Type :=
  Logging.process -> result A * Logging.process.

Definition ret {A} (a : A) : M A := fun p => (inr a, p).

Definition bind {A B} (c : M A) (k : A -> M B) : M B :=
  fun p =>
    match c p with
    | (inr a, p') => k a p'
    | (inl e, p') => (inl e, p')
    end.

(** A call that only changes the process. *)
Definition effect (f : Logging.process -> Logging.process) : M unit :=
  fun p => (inr tt, f p).

(** A call that only computes, and may raise. *)
Definition pure {A} (r : result A) : M A := fun p => (r, p).

Notation "x <- c ;; k" := (bind c (fun x => k))
  (at level 61, c at next level, right associativity).
Notation "c ;; k" := (bind c (fun _ => k))
  (at level 61, right associativity).

(* ------------------------------------------------------------------ *)
(** * Werkzeug: the WSGI environment and the request object *)

Module Werkzeug.

Import Str Dict.

(** The header fields of a request as the HTTP server parsed them: name and
    value of every field line, in the order received, a repeated name once
    per line. *)
Definition fields := list (string * string).

Definition is_content_key (key : string) : bool :=
  String.eqb key "CONTENT_TYPE" || String.eqb key "CONTENT_LENGTH".

(** One turn of the loop over the header fields in
    [WSGIRequestHandler.make_environ] (werkzeug/serving.py), the server that
    [app.run] starts:
    a name with an underscore is skipped; the name is upper-cased with
    underscores for dashes; CONTENT_TYPE and CONTENT_LENGTH are stored as
    they are; any other name gets the prefix HTTP_, and a value for a key
    already present is appended to the old value after a comma. *)
Definition add_field (environ : dict) (field : string * string) : dict :=
  let (key, value) := field in
  if has_char "_" key then environ
  else
    let key := replace_char "-" "_" (upper key) in
    let value := remove_crlf value in
    if is_content_key key then set environ key value
    else
      let key := ("HTTP_" ++ key)%string in
      match get environ key with
      | Some old => set environ key (old ++ "," ++ value)
      | None => set environ key value
      end.

Definition is_empty (s : string) : bool :=
  match s with
  | EmptyString => true
  | String _ _ => false
  end.

(** What [make_environ] reads of [urlsplit(self.path)], the request target
    taken apart: the scheme and the network location, both empty for a
    target that is only a path. *)
Record SplitResult : Type := { scheme : string; netloc : string }.

(** The entries of the WSGI environment that come from the request: the
    header fields, and after them the host of an absolute request target,
    which replaces the Host field ("if the URL is absolute, use that as the
    host").  The keys that the server sets on its own account (REQUEST_METHOD,
    SERVER_NAME, [wsgi.version] and so on) are not kept here: none of them is
    CONTENT_TYPE or CONTENT_LENGTH or starts with HTTP_, and the request
    object reads them through [method] and [path] below. *)
Definition make_environ (request_url : SplitResult) (fs : fields) : dict :=
  let environ := fold_left add_field fs [] in
  if negb (is_empty (scheme request_url))
     && negb (is_empty (netloc request_url))
  then set environ "HTTP_HOST" (netloc request_url)
  else environ.

(** [environ.get(key, "")] *)
Definition get_str (environ : dict) (key : string) : string :=
  match get environ key with
  | Some value => value
  | None => EmptyString
  end.

(** The key [wsgi.input_terminated], which [make_environ] sets when the
    transfer encoding is chunked; [wsgi.input] then takes the chunks
    apart. *)
Definition input_terminated (environ : dict) : bool :=
  String.eqb (lower (strip (get_str environ "HTTP_TRANSFER_ENCODING")))
             "chunked".

(** ** Reading the body (werkzeug/serving.py, werkzeug/wsgi.py)

    [rfile] stands for the connection after the header: the bytes that the
    client sends before it closes its side. *)

(** [rfile.readline()]: the line with its line feed, and what follows. *)
Fixpoint readline (rfile : list Byte.byte) : list Byte.byte * list Byte.byte :=
  match rfile with
  | [] => ([], [])
  | b :: rfile' =>
      if Byte.eqb b Byte.x0a then ([b], rfile')
      else let (line, rest) := readline rfile' in (b :: line, rest)
  end.

(** [DechunkedInput.read_chunk_len]: the line, decoded as Latin-1 and
    stripped, is read as a number in base 16; what is not one, or is below zero, is an
    [OSError]. *)
Definition read_chunk_len (line : list Byte.byte) : result N :=
  match int_16 (strip (string_of_list_byte line)) with
  | None => inl OSError
  | Some (negative, len) =>
      if negative && negb (len =? 0) then inl OSError else inr len
  end.

(** The line that ends a chunk. *)
Definition is_terminator (line : list Byte.byte) : bool :=
  match line with
  | [b] => Byte.eqb b Byte.x0a || Byte.eqb b Byte.x0d
  | [b; b'] => Byte.eqb b Byte.x0d && Byte.eqb b' Byte.x0a
  | _ => false
  end.

(** [DechunkedInput.readinto], called until the stream is done: a line with
    the length of the chunk, the chunk, and the line that ends it, up to the
    chunk of length zero.  A chunk that is cut short is followed by no line,
    which is an [OSError] as well.  Every turn takes a line, so [fuel]
    above the number of bytes is never used up. *)
Fixpoint read_chunks (fuel : nat) (rfile : list Byte.byte)
  : result (list Byte.byte) :=
  match fuel with
  | O => inl OSError
  | S fuel' =>
      let (line, rfile) := readline rfile in
      match read_chunk_len line with
      | inl e => inl e
      | inr len =>
          let chunk := firstn (N.to_nat len) rfile in
          let (terminator, rfile) := readline (skipn (N.to_nat len) rfile) in
          if is_terminator terminator then
            if len =? 0 then inr []
            else
              match read_chunks fuel' rfile with
              | inl e => inl e
              | inr chunks => inr (chunk ++ chunks)
              end
          else inl OSError
      end
  end.

(** [DechunkedInput(rfile).read()] *)
Definition DechunkedInput (rfile : list Byte.byte) : result (list Byte.byte) :=
  read_chunks (S (List.length rfile)) rfile.

(** [_plain_int]: an optional minus sign and decimal digits, with white
    space around them; the sign (true for minus) and the magnitude. *)
Definition plain_int (value : string) : option (bool * N) :=
  let value := strip value in
  let (negative, value) :=
    match value with
    | String c value' =>
        if Ascii.eqb c "-" then (true, value') else (false, value)
    | EmptyString => (false, value)
    end in
  if negb (is_empty value) && all_digits value
  then Some (negative, decimal 0 value)
  else None.

(** [get_content_length]: nothing without the header or with the transfer
    encoding [chunked]; zero for a value that is not a number or is below
    zero. *)
Definition get_content_length (environ : dict) : option N :=
  match get environ "CONTENT_LENGTH" with
  | None => None
  | Some value =>
      if match get environ "HTTP_TRANSFER_ENCODING" with
         | Some encoding => String.eqb encoding "chunked"
         | None => false
         end
      then None
      else
        match plain_int value with
        | Some (false, n) => Some n
        | Some (true, _) => Some 0
        | None => Some 0
        end
  end.

(** [LimitedStream(rfile, limit).read()]: the first [limit] bytes; when the
    connection ends before them, [on_disconnect] raises. *)
Definition LimitedStream (rfile : list Byte.byte) (limit : N)
  : result (list Byte.byte) :=
  if limit <=? N.of_nat (List.length rfile)
  then inr (firstn (N.to_nat limit) rfile)
  else inl ClientDisconnected.

(** [get_input_stream(environ).read()], with no limit on the length of the
    content, which is Flask's default: a stream that the server terminates
    is read to its end; without a content length the stream is empty;
    otherwise it is limited to the content length. *)
Definition get_input_stream (environ : dict) (rfile : list Byte.byte)
  : result (list Byte.byte) :=
  if input_terminated environ then DechunkedInput rfile
  else
    match get_content_length environ with
    | None => inr []
    | Some content_length => LimitedStream rfile content_length
    end.

(** [Map.bind_to_environ]: the scheme of the URL adapter.  The server has no
    TLS context, so that [wsgi.url_scheme] is [http]; a request that asks to
    upgrade the connection to a WebSocket is given the scheme [ws]. *)
Definition url_scheme (environ : dict) : string :=
  let upgrade :=
    existsb (fun v => String.eqb (strip v) "upgrade")
            (split "," (lower (get_str environ "HTTP_CONNECTION"))) in
  if upgrade && String.eqb (lower (get_str environ "HTTP_UPGRADE")) "websocket"
  then "ws" else "http".

(** ** [EnvironHeaders] (werkzeug/datastructures) *)

(** What [EnvironHeaders.__iter__] yields for one entry of the
    environment. *)
Definition yielded (entry : string * string) : list (string * string) :=
  let (key, value) := entry in
  if prefix "HTTP_" key
     && negb (String.eqb key "HTTP_CONTENT_TYPE"
              || String.eqb key "HTTP_CONTENT_LENGTH")
  then [(title (replace_char "_" "-" (drop 5 key)), value)]
  else if is_content_key key && negb (is_empty value)
  then [(title (replace_char "_" "-" key), value)]
  else [].

(** [list(headers)] *)
Definition items (environ : dict) : list (string * string) :=
  flat_map yielded environ.

(** [headers.keys()] *)
Definition keys (environ : dict) : list string := map fst (items environ).

(** [headers[key]] *)
Definition getitem (environ : dict) (key : string) : result string :=
  let key := replace_char "-" "_" (upper key) in
  let key := if is_content_key key then key else ("HTTP_" ++ key)%string in
  match get environ key with
  | Some value => inr value
  | None => inl KeyError
  end.

(** [dict(obj)] for an object with [keys()]: every key of [obj.keys()], in
    turn, is set to [obj[key]]. *)
Fixpoint update (d : dict) (getitem : string -> result string)
  (keys : list string) : result dict :=
  match keys with
  | [] => inr d
  | key :: keys' =>
      match getitem key with
      | inl e => inl e
      | inr value => update (set d key value) getitem keys'
      end
  end.

(** ** The request object

    [method] is [request.method], which Werkzeug has upper-cased; [path] is
    [request.path], decoded text, which is also the path that the rules are
    matched against (the path of a request target is not empty);
    [request_url] is the rest of the request target; [data] is what the
    client sends after the header, up to the end of the connection. *)
Record Request : Type := {
  method : string;
  path : text;
  request_url : SplitResult;
  header_fields : fields;
  data : list Byte.byte
}.

Definition environ (request : Request) : dict :=
  make_environ (request_url request) (header_fields request).

(** [dict(request.headers)] *)
Definition dict_of_headers (request : Request) : result dict :=
  update [] (getitem (environ request)) (keys (environ request)).

(** [request.get_data()]: [request.stream] read to its end. *)
Definition get_data (request : Request) : result (list Byte.byte) :=
  get_input_stream (environ request) (data request).

(** [request.get_data(as_text=True)]: the same, decoded with
    [errors="replace"]. *)
Definition get_data_as_text (request : Request) : result text :=
  match get_data request with
  | inl e => inl e
  | inr rv => Utf8.decode Utf8.replace rv
  end.

(** ** Names and keys *)

(** [name.upper().replace("-", "_")], as both [make_environ] and
    [EnvironHeaders.__getitem__] compute it. *)
Definition cgi (name : string) : string := replace_char "-" "_" (upper name).

(** [key.replace("_", "-").title()], the name [EnvironHeaders] shows for the
    key of a header. *)
Definition shown (key : string) : string := title (replace_char "_" "-" key).

(** ** The keys of the environment

    A key that [make_environ] writes is CONTENT_TYPE, CONTENT_LENGTH, or
    HTTP_ before the key of a name that is neither of them. *)
Definition key_ok (key : string) : Prop :=
  is_content_key key = true \/
  (prefix "HTTP_" key = true /\ cgi (drop 5 key) = drop 5 key
   /\ is_content_key (drop 5 key) = false).

Definition environ_ok (environ : dict) : Prop :=
  NoDup (map fst environ) /\
  forall key value, In (key, value) environ -> key_ok key.

(** The key under which [make_environ] files a name. *)
Definition environ_key (name : string) : string :=
  if is_content_key (cgi name) then cgi name else "HTTP_" ++ cgi name.

(** A field of this name would add no entry. *)
Definition settled (environ : dict) (name : string) : Prop :=
  has_char "_" name = true \/ get environ (environ_key name) <> None.

(** The fields carry a header name at least twice; the letter case of a
    name does not count. *)
Definition carried_twice (fs : fields) (name : string) : Prop :=
  exists l1 n1 v1 l2 n2 v2 l3,
    fs = (l1 ++ (n1, v1) :: l2 ++ (n2, v2) :: l3)%list
    /\ upper n1 = upper name /\ upper n2 = upper name.

End Werkzeug.

(* ------------------------------------------------------------------ *)
(** * Flask: rules, dispatch, responses *)

Module Flask.

Import Str Dict Logging Werkzeug.

(** A rule of the URL map (werkzeug/routing/rules.py): the rule as it is
    written, the methods, the endpoint, whether the rule is for WebSockets,
    and whether Flask answers OPTIONS itself. *)
Record Rule : Type := {
  rule : text;
  methods : list string;
  endpoint : string;
  websocket : bool;
  provide_automatic_options : bool
}.

Inductive Body : Type :=
| Json (d : dict)
| ErrorPage
| Empty.

Record Response : Type := {
  status : N;
  mimetype : string;
  body : Body
}.

(** A view returns a dictionary and a status. *)
Definition View : Type := Request -> M (dict * N).

Record App : Type := {
  name : string;
  url_map : list Rule;
  view_functions : list (string * View)
}.

Definition member (x : string) (l : list string) : bool :=
  existsb (String.eqb x) l.

(** [app.add_url_rule(rule, endpoint, view_func, methods=...)].  Without
    [methods] a rule is for GET.  The methods are upper-cased; OPTIONS is
    added and answered by Flask itself unless the rule lists it; Werkzeug's
    [Rule] adds HEAD to a rule that has GET, and is not for WebSockets
    unless it is told to be. *)
Definition add_url_rule (app : App) (rule : text) (endpoint : string)
  (view_func : View) (methods : option (list string)) : App :=
  let methods :=
    match methods with
    | Some methods => map upper methods
    | None => ["GET"%string]
    end in
  let automatic := negb (member "OPTIONS" methods) in
  let methods := if automatic then methods ++ ["OPTIONS"%string] else methods in
  let methods :=
    if member "GET" methods && negb (member "HEAD" methods)
    then methods ++ ["HEAD"%string] else methods in
  {| name := name app;
     url_map := url_map app ++
       [{| rule := rule; methods := methods; endpoint := endpoint;
           websocket := false; provide_automatic_options := automatic |}];
     view_functions := (endpoint, view_func) :: view_functions app |}.

(** [@app.route(rule, methods=...)] applied to a function: [add_url_rule]
    with the function's name as the endpoint. *)
Definition route (app : App) (rule : text) (methods : list string)
  (endpoint : string) (view_func : View) : App :=
  add_url_rule app rule endpoint view_func (Some methods).

(** [app.send_static_file(filename)]: [send_from_directory] raises
    [NotFound] for a name that is not a file of the static folder, and the
    application has no static folder beside its one source file. *)
Definition send_static_file : View := fun _ => pure (inl NotFound).

(** [Flask(__name__)]: the static folder is ["static"] unless it is given,
    and the rule for its files is there from the start. *)
Definition Flask (name : string) : App :=
  add_url_rule {| name := name; url_map := []; view_functions := [] |}
    (py "/static/<path:filename>") "static" send_static_file None.

Fixpoint text_eqb (a b : text) : bool :=
  match a, b with
  | [], [] => true
  | x :: a', y :: b' => (x =? y) && text_eqb a' b'
  | _, _ => false
  end.

(** ** Matching (werkzeug/routing/matcher.py)

    The rules of this application are of two forms: a path, and a path
    before the one variable part [<path:filename>].  The matcher goes
    through a path part by part; for rules of these forms it finds what a
    comparison from the left finds. *)

(** The regular expression of the [path] converter at the end of a rule,
    [[^/].*?\Z]: a first character other than the slash, and no line feed
    after it. *)
Definition path_converter (target : text) : bool :=
  match target with
  | [] => false
  | c :: target' => negb (c =? 47) && negb (existsb (N.eqb 10) target')
  end.

Fixpoint rule_matches (rule path : text) : bool :=
  if text_eqb rule (py "<path:filename>") then path_converter path
  else
    match rule, path with
    | [], [] => true
    | x :: rule', y :: path' => (x =? y) && rule_matches rule' path'
    | _, _ => false
    end.

(** [re.sub("/{2,}?", "/", path)]: from the left, two slashes become
    one. *)
Fixpoint merge_slashes (path : text) : text :=
  match path with
  | x :: ((y :: path'') as path') =>
      if (x =? 47) && (y =? 47) then 47 :: merge_slashes path''
      else x :: merge_slashes path'
  | _ => path
  end.

(** What the matcher has seen when it finds no rule: a rule for this path
    with other methods, a rule for this path and method that differs on
    WebSockets. *)
Record NoMatch : Type := {
  have_match_for : bool;
  websocket_mismatch : bool
}.

(** One pass of [StateMachineMatcher.match] over the rules: the first rule
    for this path that has the method and agrees on WebSockets. *)
Fixpoint match_rules (rules : list Rule) (path : text) (method : string)
  (ws : bool) (seen : NoMatch) : Rule + NoMatch :=
  match rules with
  | [] => inr seen
  | r :: rules' =>
      if rule_matches (rule r) path then
        if negb (member method (methods r)) then
          match_rules rules' path method ws
            {| have_match_for := true;
               websocket_mismatch := websocket_mismatch seen |}
        else if negb (Bool.eqb (websocket r) ws) then
          match_rules rules' path method ws
            {| have_match_for := have_match_for seen;
               websocket_mismatch := true |}
        else inl r
      else match_rules rules' path method ws seen
  end.

(** [MapAdapter.match]: when no rule is found, the path is tried again with
    its slashes merged, and a rule found then is a redirect.  Otherwise the
    request is refused: for its method when the path is known for other
    methods, else for not being (or being) a WebSocket request, else as not
    found. *)
Definition MapAdapter_match (rules : list Rule) (path : text)
  (method : string) (ws : bool) : result Rule :=
  match match_rules rules path method ws
          {| have_match_for := false; websocket_mismatch := false |} with
  | inl r => inr r
  | inr seen =>
      match match_rules rules (merge_slashes path) method ws seen with
      | inl _ => inl RequestRedirect
      | inr seen =>
          if have_match_for seen then inl MethodNotAllowed
          else if websocket_mismatch seen then inl WebsocketMismatch
          else inl NotFound
      end
  end.

(** [RequestContext.match_request], with the adapter that
    [Flask.create_url_adapter] binds to the environment. *)
Definition match_request (app : App) (request : Request) : result Rule :=
  MapAdapter_match (url_map app) (path request) (method request)
    (member (url_scheme (environ request)) ["ws"; "wss"]%string).

Fixpoint view_function (views : list (string * View)) (endpoint : string)
  : option View :=
  match views with
  | [] => None
  | (e, f) :: views' =>
      if String.eqb e endpoint then Some f else view_function views' endpoint
  end.

(** The response to an HTTP exception. *)
Definition error_response (code : N) : Response :=
  {| status := code; mimetype := "text/html"; body := ErrorPage |}.

(** [make_default_options_response] *)
Definition default_options_response : Response :=
  {| status := 200; mimetype := "text/html"; body := Empty |}.

(** [make_response] for a view that returns [(dict, status)]: the
    dictionary becomes the JSON body. *)
Definition make_response (rv : dict * N) : Response :=
  {| status := snd rv; mimetype := "application/json"; body := Json (fst rv) |}.

(** [Flask.dispatch_request]: the exception of the routing is raised; the
    automatic answer to OPTIONS is given; otherwise the view of the endpoint
    is called. *)
Definition dispatch_request (app : App) (request : Request) : M Response :=
  match match_request app request with
  | inl routing_exception => pure (inl routing_exception)
  | inr r =>
      if provide_automatic_options r && String.eqb (method request) "OPTIONS"
      then ret default_options_response
      else
        match view_function (view_functions app) (endpoint r) with
        | None => pure (inl KeyError)
        | Some view => rv <- view request ;; ret (make_response rv)
        end
  end.

(** [Flask.log_exception]: an ERROR record of the application's logger,
    which propagates to the root logger (the traceback that follows the
    message is left out). *)
Definition log_exception (app : App) (request : Request) (p : process)
  : process :=
  log {| levelno := ERROR; levelname := "ERROR"; Logging.name := name app;
         msg := "Exception on %s [%s]";
         args := [VStr (path request); VStr (py (method request))] |} p.

(** [Flask.wsgi_app].  An HTTP exception is its own response
    ([handle_user_exception], [handle_http_exception]); any other exception
    is logged and answered with 500 ([handle_exception]); the body of the
    response to a HEAD request is not sent. *)
Definition wsgi_app (app : App) (request : Request) (p : process)
  : Response * process :=
  let (response, p') :=
    match dispatch_request app request p with
    | (inr response, p') => (response, p')
    | (inl e, p') =>
        match code e with
        | Some c => (error_response c, p')
        | None => (error_response 500, log_exception app request p')
        end
    end in
  (if String.eqb (method request) "HEAD"
   then {| status := status response; mimetype := mimetype response;
           body := Empty |}
   else response, p').

End Flask.

(* ------------------------------------------------------------------ *)
(** * The application (flask-app/app.py) *)

Module App.

Import Str Dict Logging Werkzeug Flask.

(** [def home()]: the view reads the request of the current context, here
    its argument. *)
Definition home (request : Request) : M (dict * N) :=
  effect (info "Incoming request: %s %s"
            [VStr (py (method request)); VStr (path request)]) ;;
  headers <- pure (dict_of_headers request) ;;
  effect (info "Headers: %s" [VDict headers]) ;;
  (if String.eqb (method request) "POST" then
     payload <- pure (get_data_as_text request) ;;
     effect (info "Payload: %s" [VStr payload])
   else ret tt) ;;
  ret ([("message", "Hello from Flask!")]%string, 200).

(** [app = Flask(__name__)] *)
Definition flask_app : App := Flask "app".

(** The application with a view under
    [@app.route("/", methods=["GET", "POST"])]. *)
Definition routed (view_func : View) : App :=
  route flask_app (py "/") ["GET"; "POST"]%string "home" view_func.

(** The application of the source: the view is [home]. *)
Definition app : App := routed home.

(** The process after the module is loaded:
    [logging.basicConfig(level=logging.INFO)]. *)
Definition loaded : process := basicConfig (Some INFO) None fresh.

(** [app.run(host="0.0.0.0", port=5000)] *)
Definition host : string := "0.0.0.0".
Definition port : N := 5000.

(** One request served by the running application. *)
Definition serve (request : Request) (p : process) : Response * process :=
  wsgi_app app request p.

End App.

(* ------------------------------------------------------------------ *)
(** * What the claims speak of *)

Module Spec.

Import Str Dict Logging Werkzeug Flask App.

(** The root logger as the module leaves it when it is loaded. *)
Definition configured (p : process) : Prop := root p = root loaded.

(** A record of the root logger at INFO, as written to the stream. *)
Definition record (message : text) : text :=
  format "INFO" "root" message ++ terminator.

(** The dictionary that [home] returns. *)
Definition ACK : dict := [("message", "Hello from Flask!")]%string.

(** The response that Flask makes of it. *)
Definition acknowledgement : Response :=
  {| status := 200; mimetype := "application/json"; body := Json ACK |}.

(** The three records of [home]. *)
Definition request_record (request : Request) : text :=
  record (py "Incoming request: " ++ py (method request) ++ py " "
          ++ path request).

Definition headers_record (headers : dict) : text :=
  record (py "Headers: " ++ py (repr_dict headers)).

Definition payload_record (payload : text) : text :=
  record (py "Payload: " ++ payload).

(** What [home] writes and what comes of it, given the dictionary of the
    headers and what reading the body gives: the third record is written
    for POST when the body has been read, and an exception raised by the
    reading leaves [home] after the second record. *)
Definition records (request : Request) (headers : dict)
  (payload : result text) : list text :=
  [request_record request; headers_record headers] ++
  (if String.eqb (method request) "POST"
   then match payload with
        | inr payload => [payload_record payload]
        | inl _ => []
        end
   else []).

Definition outcome (request : Request) (payload : result text)
  : result (dict * N) :=
  if String.eqb (method request) "POST"
  then match payload with
       | inr _ => inr (ACK, 200)
       | inl e => inl e
       end
  else inr (ACK, 200).

(** The record of [log_exception], as written to the stream. *)
Definition exception_record (request : Request) : text :=
  format "ERROR" "app"
    (py "Exception on " ++ path request ++ py " [" ++ py (method request)
     ++ py "]") ++ terminator.

(** What has been written to a stream between two states of the process. *)
Definition emitted (s : stream) (before after : process) : list text :=
  skipn (List.length (written s before)) (written s after).

(** The two rules of the URL map: the rule of the static files, and the
    rule of [home]. *)
Definition static_rule : Rule :=
  {| rule := py "/static/<path:filename>";
     methods := ["GET"; "OPTIONS"; "HEAD"]%string;
     endpoint := "static"; websocket := false;
     provide_automatic_options := true |}.

Definition home_rule : Rule :=
  {| rule := py "/"; methods := ["GET"; "POST"; "OPTIONS"; "HEAD"]%string;
     endpoint := "home"; websocket := false;
     provide_automatic_options := true |}.

(** The stream that the root logger's handler writes to. *)
Definition log_stream (p : process) : stream :=
  match handlers (root p) with
  | h :: _ => h_stream h
  | [] => h_stream (StreamHandler None)
  end.

(** The records logged for a request: what handling it added to the stream
    of the root logger's handler, one element per record. *)
Definition log_records (before after : process) : list text :=
  emitted (log_stream before) before after.

(** The logged output of a request: its records as one text. *)
Definition logged (before after : process) : text :=
  List.concat (log_records before after).

(** The request target is an absolute URL: it has a scheme and a network
    location. *)
Definition absolute (request_url : SplitResult) : bool :=
  negb (is_empty (scheme request_url)) && negb (is_empty (netloc request_url)).

(** A request target that is only a path. *)
Definition origin : SplitResult :=
  {| scheme := EmptyString; netloc := EmptyString |}.



(** Requests used as examples. *)
Definition get_request : Request :=
  {| method := "GET"; path := py "/"; request_url := origin;
     header_fields := []; data := [] |}.

Definition post_request : Request :=
  {| method := "POST"; path := py "/"; request_url := origin;
     header_fields := [("Host", "localhost:5000"); ("X-Test", "value");
                       ("Content-Length", "12")]%string;
     data := Utf8.bytes_of "test-payload" |}.

Definition head_request : Request :=
  {| method := "HEAD"; path := py "/"; request_url := origin;
     header_fields := []; data := [] |}.

Definition delete_request : Request :=
  {| method := "DELETE"; path := py "/"; request_url := origin;
     header_fields := []; data := [] |}.


(** A request with one header name on two field lines. *)
Definition repeated_request : Request :=
  {| method := "GET"; path := py "/"; request_url := origin;
     header_fields := [("X-Tag", "first"); ("X-Tag", "second")]%string;
     data := [] |}.


(** The routing leads the request to the rule of [home]. *)
Definition reaches_home (request : Request) : Prop :=
  match_request app request = inr home_rule.

(** A request is handled when the rule leads it to [home] by one of the
    methods the route was given. *)
Definition handled (request : Request) : Prop :=
  reaches_home request /\
  (method request = "GET"%string \/ method request = "POST"%string).

(** The process after a sequence of requests has been served. *)
Definition run (requests : list Request) (p : process) : process :=
  fold_left (fun p request => snd (serve request p)) requests p.

(** A request with another body, and with other header fields. *)
Definition with_data (request : Request) (body : list Byte.byte) : Request :=
  {| method := method request; path := path request;
     request_url := request_url request;
     header_fields := header_fields request; data := body |}.

Definition with_fields (request : Request) (fs : fields) : Request :=
  {| method := method request; path := path request;
     request_url := request_url request;
     header_fields := fs; data := data request |}.

(** Two sequences of header fields that differ in the letter case of the
    names only. *)
Definition same_fields (fs1 fs2 : fields) : Prop :=
  Forall2 (fun f1 f2 => upper (fst f1) = upper (fst f2) /\ snd f1 = snd f2)
          fs1 fs2.

(** The values that the fields carry under a name, in the order received,
    as the server keeps them: fields with an underscore in the name are
    left out, line folds are taken out of the values. *)
Definition values_of (name : string) (fs : fields) : list string :=
  map (fun f => remove_crlf (snd f))
      (filter (fun f => negb (has_char "_" (fst f))
                        && String.eqb (cgi (fst f)) (cgi name)) fs).

(** Every character of a native string passes a test. *)
Fixpoint all_chars (test : ascii -> bool) (s : string) : bool :=
  match s with
  | EmptyString => true
  | String c s' => test c && all_chars test s'
  end.

(** A Unicode scalar value: a code point up to U+10FFFF that is not a
    surrogate. *)
Definition is_scalar (c : N) : bool :=
  (c <? 0xD800) || ((0xDFFF <? c) && (c <=? 0x10FFFF)).

(** The response to a HEAD request that [home] has answered. *)
Definition head_acknowledgement : Response :=
  {| status := 200; mimetype := "application/json"; body := Empty |}.


Definition options_request : Request :=
  {| method := "OPTIONS"; path := py "/"; request_url := origin;
     header_fields := []; data := [] |}.

(** A process in which logging was configured before the module is loaded:
    the root logger has a handler and stands at WARNING. *)
Definition preconfigured : process :=
  {| sys_stdout := []; sys_stderr := [];
     root := {| level := WARNING; handlers := [StreamHandler None] |} |}.

(** What serving a request from the loaded state writes to [sys.stderr]. *)
Definition writes (request : Request) : list text :=
  emitted stderr loaded (snd (serve request loaded)).



(** A POST request whose body ends before the length it has announced. *)
Definition truncated_request : Request :=
  {| method := "POST"; path := py "/"; request_url := origin;
     header_fields := [("Content-Length", "12")]%string;
     data := Utf8.bytes_of "test-" |}.

(** A POST request that sends bytes after the header without saying how
    many. *)
Definition unframed_request : Request :=
  {| method := "POST"; path := py "/"; request_url := origin;
     header_fields := [("Host", "localhost:5000")]%string;
     data := Utf8.bytes_of "test-payload" |}.

(** POST requests in chunks: one chunk of twelve bytes before the last
    chunk, and a chunk whose length is no number. *)
Definition crlf : string := String "013" (String "010" EmptyString).


Definition bad_chunk_request : Request :=
  {| method := "POST"; path := py "/"; request_url := origin;
     header_fields := [("Transfer-Encoding", "chunked")]%string;
     data := Utf8.bytes_of ("zz" ++ crlf) |}.

(** A request whose target is an absolute URL, with a Host field that names
    another host. *)
Definition absolute_request : Request :=
  {| method := "GET"; path := py "/";
     request_url := {| scheme := "http"; netloc := "example.org" |};
     header_fields := [("Host", "localhost:5000")]%string;
     data := [] |}.


End Spec.

(* ------------------------------------------------------------------ *)
(** * Proof tactics *)

(** Splits a goal in which [decode_from_cons] has been unfolded into the
    decoder's branches; the recursive calls stay folded. *)
Ltac decoder_cases :=
  repeat match goal with
    | |- context [if ?b then _ else _] => destruct b
    | |- context [match ?l with [] => _ | _ :: _ => _ end] =>
        is_var l; destruct l
    end.

(** Turns the tests of the decoder's branches into inequalities. *)
Ltac branch_facts :=
  unfold Utf8.is_continuation in *;
  repeat match goal with
    | H : (_ || _) = false |- _ => apply orb_false_elim in H; destruct H
    | H : (_ && _) = true |- _ => apply andb_prop in H; destruct H
    | H : negb _ = false |- _ => apply negb_false_iff in H
    | H : negb _ = true |- _ => apply negb_true_iff in H
    | H : (if ?b then _ else _) = _ |- _ => destruct b eqn:?
    | H : (_ <? _) = true |- _ => apply N.ltb_lt in H
    | H : (_ <? _) = false |- _ => apply N.ltb_ge in H
    | H : (_ <=? _) = true |- _ => apply N.leb_le in H
    | H : (_ <=? _) = false |- _ => apply N.leb_gt in H
    | H : (_ =? _) = true |- _ => apply N.eqb_eq in H
    | H : (_ =? _) = false |- _ => apply N.eqb_neq in H
    | H : (_ && _) = false |- _ => apply andb_false_iff in H; destruct H
    end.

(** Closes [is_scalar c = true] from the inequalities at hand. *)
Ltac scalar :=
  unfold Spec.is_scalar, Utf8.REPLACEMENT_CHARACTER;
  rewrite ?N.shiftl_mul_pow2;
  match goal with
  | |- (?a <? ?b) || _ = true =>
      let G := fresh in
      destruct (a <? b) eqn:G; [reflexivity|];
      apply N.ltb_ge in G; cbn [orb];
      apply andb_true_intro; split; [apply N.ltb_lt | apply N.leb_le]; lia
  end.

(** The decoder's cases, with the test of each branch kept. *)
Ltac decoder_cases_eqn :=
  repeat match goal with
    | |- context [if ?b then _ else _] => destruct b eqn:?
    | |- context [match ?l with [] => _ | _ :: _ => _ end] =>
        is_var l; destruct l
    end.

(** The 256 cases of a character. *)
Ltac each_char c := destruct c as [[] [] [] [] [] [] [] []].

(* ------------------------------------------------------------------ *)
(** * Facts about strings *)

Module StrFacts.

Import Str.

Local Open Scope string_scope.

Lemma append_nil_r (s : string) : s ++ EmptyString = s.
Proof. induction s as [|c s IH]; simpl; [reflexivity | now rewrite IH]. Qed.

Lemma append_assoc (a b c : string) : (a ++ b) ++ c = a ++ (b ++ c).
Proof. induction a as [|x a IH]; simpl; [reflexivity | now rewrite IH]. Qed.

Lemma py_app (a b : string) : py (a ++ b) = (py a ++ py b)%list.
Proof.
  unfold py. induction a as [|x a IH]; simpl; [reflexivity | now rewrite IH].
Qed.

Lemma occurs_in_refl (s : string) : occurs_in s s.
Proof. exists EmptyString, EmptyString. now rewrite append_nil_r. Qed.

Lemma occurs_in_app_l (n a b : string) : occurs_in n a -> occurs_in n (a ++ b).
Proof.
  intros (pre & post & ->). exists pre, (post ++ b).
  now rewrite !append_assoc.
Qed.

Lemma occurs_in_app_r (n a b : string) : occurs_in n b -> occurs_in n (a ++ b).
Proof.
  intros (pre & post & ->). exists (a ++ pre), post.
  now rewrite !append_assoc.
Qed.

Lemma occurs_in_cons (n : string) c (s : string) :
  occurs_in n s -> occurs_in n (String c s).
Proof. apply (occurs_in_app_r n (String c EmptyString) s). Qed.

Lemma occurs_in_trans (a b c : string) :
  occurs_in a b -> occurs_in b c -> occurs_in a c.
Proof.
  intros (p1 & q1 & ->) (p2 & q2 & ->).
  exists (p2 ++ p1), (q1 ++ q2). now rewrite !append_assoc.
Qed.

Local Close Scope string_scope.

(** [contains] decides the occurrence of one text in another. *)
Lemma startswith_app (needle rest : text) :
  startswith (needle ++ rest) needle = true.
Proof.
  induction needle as [|a needle IH]; simpl; [reflexivity|].
  now rewrite N.eqb_refl, IH.
Qed.

Lemma startswith_elim (hay needle : text) :
  startswith hay needle = true -> exists rest, hay = needle ++ rest.
Proof.
  revert hay. induction needle as [|a needle IH]; intros hay H.
  - now exists hay.
  - destruct hay as [|b hay]; simpl in H; [discriminate|].
    apply andb_prop in H as [Hab H]. apply N.eqb_eq in Hab as ->.
    destruct (IH _ H) as [rest ->]. now exists rest.
Qed.

Lemma contains_intro (pre needle post : text) :
  contains (pre ++ needle ++ post) needle = true.
Proof.
  induction pre as [|a pre IH].
  - simpl. destruct (needle ++ post) eqn:E; simpl;
      rewrite <- E, startswith_app; reflexivity.
  - simpl. rewrite IH. apply orb_true_r.
Qed.

Lemma contains_elim (hay needle : text) :
  contains hay needle = true -> exists pre post, hay = pre ++ needle ++ post.
Proof.
  induction hay as [|a hay IH]; simpl; intros H.
  - rewrite orb_false_r in H. destruct needle; [|discriminate].
    now exists [], [].
  - apply orb_prop in H as [H|H].
    + destruct (startswith_elim _ _ H) as [rest E].
      exists [], rest. now rewrite E.
    + destruct (IH H) as (pre & post & ->). now exists (a :: pre), post.
Qed.

Lemma contains_iff (hay needle : text) :
  contains hay needle = true <->
  exists pre post, hay = pre ++ needle ++ post.
Proof.
  split; [apply contains_elim|]. intros (pre & post & ->).
  apply contains_intro.
Qed.

Lemma contains_app_l (a b needle : text) :
  contains a needle = true -> contains (a ++ b) needle = true.
Proof.
  intros H. apply contains_elim in H as (pre & post & ->).
  rewrite <- !app_assoc. apply contains_intro.
Qed.

Lemma contains_app_r (a b needle : text) :
  contains b needle = true -> contains (a ++ b) needle = true.
Proof.
  intros H. apply contains_elim in H as (pre & post & ->).
  rewrite app_assoc. apply contains_intro.
Qed.

Lemma contains_concat (chunks : list text) (chunk needle : text) :
  In chunk chunks -> contains chunk needle = true ->
  contains (List.concat chunks) needle = true.
Proof.
  induction chunks as [|c chunks IH]; simpl; [tauto|].
  intros [->|Hin] H.
  - now apply contains_app_l.
  - apply contains_app_r. now apply IH.
Qed.

Lemma occurs_in_contains (needle hay : string) :
  occurs_in needle hay -> contains (py hay) (py needle) = true.
Proof.
  intros (pre & post & ->). rewrite !py_app. apply contains_intro.
Qed.

End StrFacts.

(* ------------------------------------------------------------------ *)
(** * Facts about the decoder *)

Module Utf8Facts.

Import Str Utf8.

(** One step of [decode_from], with the recursive calls left folded. *)
Lemma decode_from_cons (e : errors) (ch : N) (s1 : list N) :
  decode_from e (ch :: s1) =
    if ch <? 0x80 then emit ch (decode_from e s1)
    else if ch <? 0xC2 then on_error e (decode_from e s1)
    else if ch <? 0xE0 then
      match s1 with
      | [] => on_error e (inr [])
      | ch2 :: s2 =>
        if is_continuation ch2
        then emit (N.shiftl ch 6 + ch2 - (N.shiftl 0xC0 6 + 0x80))
                  (decode_from e s2)
        else on_error e (decode_from e s1)
      end
    else if ch <? 0xF0 then
      match s1 with
      | [] => on_error e (inr [])
      | ch2 :: s2 =>
        if negb (is_continuation ch2)
           || (if ch2 <? 0xA0 then ch =? 0xE0 else ch =? 0xED)
        then on_error e (decode_from e s1)
        else
          match s2 with
          | [] => on_error e (inr [])
          | ch3 :: s3 =>
            if is_continuation ch3
            then emit (N.shiftl ch 12 + N.shiftl ch2 6 + ch3
                       - (N.shiftl 0xE0 12 + N.shiftl 0x80 6 + 0x80))
                      (decode_from e s3)
            else on_error e (decode_from e s2)
          end
      end
    else if ch <? 0xF5 then
      match s1 with
      | [] => on_error e (inr [])
      | ch2 :: s2 =>
        if negb (is_continuation ch2)
           || (if ch2 <? 0x90 then ch =? 0xF0 else ch =? 0xF4)
        then on_error e (decode_from e s1)
        else
          match s2 with
          | [] => on_error e (inr [])
          | ch3 :: s3 =>
            if negb (is_continuation ch3)
            then on_error e (decode_from e s2)
            else
              match s3 with
              | [] => on_error e (inr [])
              | ch4 :: s4 =>
                if is_continuation ch4
                then emit (N.shiftl ch 18 + N.shiftl ch2 12
                           + N.shiftl ch3 6 + ch4
                           - (N.shiftl 0xF0 18 + N.shiftl 0x80 12
                              + N.shiftl 0x80 6 + 0x80))
                          (decode_from e s4)
                else on_error e (decode_from e s3)
              end
          end
      end
    else on_error e (decode_from e s1).
Proof. reflexivity. Qed.

Lemma returns_nil : returns (A := text) (inr []).
Proof. now exists []. Qed.

Lemma returns_emit ch r : returns r -> returns (emit ch r).
Proof. intros [t ->]. now exists (ch :: t). Qed.

Lemma returns_on_error r : returns r -> returns (on_error replace r).
Proof. intros [t ->]. now exists (REPLACEMENT_CHARACTER :: t). Qed.

(** Induction on the input by length: the decoder resumes one to four bytes
    further on. *)
Lemma shorter_induction (P : list N -> Prop) :
  (forall s, (forall s', (List.length s' < List.length s)%nat -> P s') -> P s) ->
  forall s, P s.
Proof.
  intros step s.
  assert (H : forall n s, (List.length s < n)%nat -> P s).
  { induction n as [|n IH]; intros s0 Hs; [lia|].
    apply step. intros s' Hs'. apply IH. lia. }
  apply (H (S (List.length s))). lia.
Qed.

(** With [errors="replace"] the decoder returns a text for every input. *)
Lemma decode_from_replace_returns (s : list N) :
  returns (decode_from replace s).
Proof.
  induction s as [s IH] using shorter_induction.
  destruct s as [|ch s]; [apply returns_nil|].
  rewrite decode_from_cons.
  decoder_cases;
    repeat first [ apply returns_emit | apply returns_on_error
                 | apply returns_nil ];
    apply IH; simpl; lia.
Qed.

Lemma emit_inr ch r t :
  emit ch r = inr t -> exists t', r = inr t' /\ t = ch :: t'.
Proof.
  destruct r as [e|t']; simpl; [discriminate|].
  intros [= <-]. now exists t'.
Qed.





End Utf8Facts.

(* ------------------------------------------------------------------ *)
(** * Facts about dictionaries *)

Module DictFacts.

Import Str Dict StrFacts.

Lemma get_set (d : dict) (k v k' : string) :
  get (set d k v) k' = if String.eqb k k' then Some v else get d k'.
Proof.
  induction d as [|[k0 v0] d IH]; simpl; [reflexivity|].
  destruct (String.eqb_spec k0 k) as [->|Hk0]; simpl.
  - destruct (String.eqb_spec k k'); reflexivity.
  - rewrite IH.
    destruct (String.eqb_spec k0 k') as [->|]; [|reflexivity].
    destruct (String.eqb_spec k k'); [congruence | reflexivity].
Qed.

Lemma get_set_same (d : dict) (k v : string) : get (set d k v) k = Some v.
Proof. now rewrite get_set, String.eqb_refl. Qed.

Lemma get_set_other (d : dict) (k v k' : string) :
  k <> k' -> get (set d k v) k' = get d k'.
Proof. intros H. rewrite get_set. now destruct (String.eqb_spec k k'). Qed.

Lemma get_In (d : dict) (k v : string) : get d k = Some v -> In (k, v) d.
Proof.
  induction d as [|[k0 v0] d IH]; simpl; [discriminate|].
  destruct (String.eqb_spec k0 k) as [->|_].
  - intros [= ->]. now left.
  - intros H. right. now apply IH.
Qed.

Lemma In_get (d : dict) (k v : string) :
  In (k, v) d -> exists v', get d k = Some v'.
Proof.
  induction d as [|[k0 v0] d IH]; simpl; [tauto|].
  intros [[= -> ->]|H].
  - rewrite String.eqb_refl. now exists v.
  - destruct (String.eqb k0 k); [now exists v0 | now apply IH].
Qed.

Lemma In_get_NoDup (d : dict) (k v : string) :
  NoDup (map fst d) -> In (k, v) d -> get d k = Some v.
Proof.
  induction d as [|[k0 v0] d IH]; simpl; [tauto|].
  intros Hnd [[= -> ->]|H].
  - now rewrite String.eqb_refl.
  - inversion Hnd as [|? ? Hnotin Hnd']; subst.
    destruct (String.eqb_spec k0 k) as [->|_]; [|now apply IH].
    exfalso. apply Hnotin. now apply (in_map fst) in H.
Qed.

Lemma In_set (d : dict) (k v k' v' : string) :
  In (k', v') (set d k v) -> In (k', v') d \/ (k' = k /\ v' = v).
Proof.
  induction d as [|[k0 v0] d IH]; simpl.
  - intros [[= <- <-]|[]]. now right.
  - destruct (String.eqb_spec k0 k) as [->|_]; simpl.
    + intros [[= <- <-]|H]; [now right | now left; right].
    + intros [H|H]; [now left; left|].
      destruct (IH H) as [H'|H']; [now left; right | now right].
Qed.

Lemma keys_set (d : dict) (k v k' : string) :
  In k' (map fst (set d k v)) -> In k' (map fst d) \/ k' = k.
Proof.
  intros H. apply in_map_iff in H as ([k1 v1] & <- & H).
  apply In_set in H as [H|[-> _]]; [left | now right].
  now apply (in_map fst) in H.
Qed.

(** Setting a key keeps the keys distinct. *)
Lemma NoDup_set (d : dict) (k v : string) :
  NoDup (map fst d) -> NoDup (map fst (set d k v)).
Proof.
  induction d as [|[k0 v0] d IH]; simpl; intros Hnd.
  - constructor; [tauto | constructor].
  - inversion Hnd as [|? ? Hnotin Hnd']; subst.
    destruct (String.eqb_spec k0 k) as [->|Hne]; simpl.
    + now constructor.
    + constructor; [|now apply IH].
      intros H. apply keys_set in H as [H|H]; [tauto | congruence].
Qed.

(** Setting a key that is there does not add an entry. *)
Lemma length_set (d : dict) (k v : string) :
  List.length (set d k v) =
    match get d k with
    | Some _ => List.length d
    | None => S (List.length d)
    end.
Proof.
  induction d as [|[k0 v0] d IH]; simpl; [reflexivity|].
  destruct (String.eqb k0 k); simpl; [reflexivity|].
  rewrite IH. now destruct (get d k).
Qed.

(** ** [repr] *)

Local Open Scope string_scope.

Lemma occurs_in_join (sep x : string) (parts : list string) :
  In x parts -> occurs_in x (join sep parts).
Proof.
  induction parts as [|p parts IH]; [intros []|].
  intros [->|H].
  - destruct parts as [|q parts]; simpl.
    + apply occurs_in_refl.
    + apply occurs_in_app_l, occurs_in_refl.
  - destruct parts as [|q parts]; [destruct H|].
    change (join sep (p :: q :: parts))
      with (p ++ sep ++ join sep (q :: parts)).
    now apply occurs_in_app_r, occurs_in_app_r, IH.
Qed.

Lemma occurs_in_repr_dict (d : dict) (k v : string) :
  In (k, v) d -> occurs_in (repr_item (k, v)) (repr_dict d).
Proof.
  intros H. unfold repr_dict.
  apply (occurs_in_app_r _ "{"), occurs_in_app_l, occurs_in_join.
  now apply (in_map repr_item) in H.
Qed.

Lemma escape_all_app (q : ascii) (a b : string) :
  escape_all q (a ++ b) = escape_all q a ++ escape_all q b.
Proof.
  induction a as [|c a IH]; simpl; [reflexivity|].
  now rewrite IH, append_assoc.
Qed.

Lemma quote_for_cases (s : string) :
  quote_for s = single_quote \/ quote_for s = double_quote.
Proof. unfold quote_for. destruct (_ && _); auto. Qed.

Lemma occurs_in_repr (needle s : string) :
  plain needle -> occurs_in needle s -> occurs_in needle (repr s).
Proof.
  intros [Hs Hd] (pre & post & ->). unfold repr.
  apply occurs_in_cons, occurs_in_app_l.
  rewrite !escape_all_app.
  apply occurs_in_app_r, occurs_in_app_l.
  destruct (quote_for_cases (pre ++ needle ++ post)) as [->| ->];
    [rewrite Hs | rewrite Hd]; apply occurs_in_refl.
Qed.

End DictFacts.

(* ------------------------------------------------------------------ *)
(** * Facts about the WSGI environment and [EnvironHeaders] *)

Module EnvFacts.

Import Str Dict Werkzeug Spec StrFacts DictFacts.

Local Open Scope string_scope.

Lemma cgi_char_idem (c : ascii) :
  let f c := if Ascii.eqb (upper_char c) "-" then "_"%char else upper_char c in
  f (f c) = f c.
Proof. each_char c; reflexivity. Qed.

Lemma cgi_char_shown (b : bool) (c : ascii) :
  let c' := if Ascii.eqb c "_" then "-"%char else c in
  let t := if b then lower_char c' else upper_char c' in
  (if Ascii.eqb (upper_char t) "-" then "_"%char else upper_char t) =
  (if Ascii.eqb (upper_char c) "-" then "_"%char else upper_char c).
Proof. destruct b; each_char c; reflexivity. Qed.

Lemma underscore_upper_char (c : ascii) :
  Ascii.eqb (upper_char c) "_" = Ascii.eqb c "_".
Proof. each_char c; reflexivity. Qed.

(** The key of a name is the key of itself. *)
Lemma cgi_idem (name : string) : cgi (cgi name) = cgi name.
Proof.
  unfold cgi. induction name as [|c s IH]; simpl; [reflexivity|].
  rewrite IH. f_equal. apply cgi_char_idem.
Qed.

(** The name shown for a key leads back to the key. *)
Lemma cgi_title_from (b : bool) (key : string) :
  cgi (title_from b (replace_char "_" "-" key)) = cgi key.
Proof.
  unfold cgi. revert b. induction key as [|c s IH]; intros b; simpl;
    [reflexivity|].
  rewrite IH. f_equal. apply cgi_char_shown.
Qed.

Lemma cgi_shown (key : string) : cgi (shown key) = cgi key.
Proof. apply cgi_title_from. Qed.

(** Two spellings of a name that differ in letter case only have one key. *)
Lemma cgi_upper (a b : string) : upper a = upper b -> cgi a = cgi b.
Proof. unfold cgi. now intros ->. Qed.

Lemma has_underscore_upper (name : string) :
  has_char "_" (upper name) = has_char "_" name.
Proof.
  induction name as [|c s IH]; simpl; [reflexivity|].
  now rewrite IH, underscore_upper_char.
Qed.

Lemma prefix_HTTP (key : string) :
  prefix "HTTP_" key = true -> key = "HTTP_" ++ drop 5 key.
Proof.
  intros H. apply prefix_correct in H. simpl in H.
  destruct key as [|c1 [|c2 [|c3 [|c4 [|c5 key]]]]]; try discriminate H.
  simpl in H. injection H as -> -> -> -> -> _. reflexivity.
Qed.

Lemma prefix_HTTP_app (name : string) : prefix "HTTP_" ("HTTP_" ++ name) = true.
Proof. simpl. now destruct name. Qed.

Lemma is_content_key_cases (key : string) :
  is_content_key key = true -> key = "CONTENT_TYPE" \/ key = "CONTENT_LENGTH".
Proof.
  unfold is_content_key. intros H. apply orb_prop in H as [H|H];
    apply String.eqb_eq in H; auto.
Qed.

Lemma environ_ok_set (environ : dict) (key value : string) :
  environ_ok environ -> key_ok key -> environ_ok (set environ key value).
Proof.
  intros [Hnd Hok] Hkey. split; [now apply NoDup_set|].
  intros k v H. apply In_set in H as [H|[-> _]]; [now apply (Hok k v) | exact Hkey].
Qed.

Lemma key_ok_HTTP (name : string) :
  is_content_key (cgi name) = false -> key_ok ("HTTP_" ++ cgi name).
Proof.
  intros H. right. change (drop 5 ("HTTP_" ++ cgi name)) with (cgi name).
  split; [apply prefix_HTTP_app | split; [apply cgi_idem | exact H]].
Qed.

Lemma environ_ok_add_field (environ : dict) (field : string * string) :
  environ_ok environ -> environ_ok (add_field environ field).
Proof.
  intros H. destruct field as [name value]. unfold add_field.
  destruct (has_char "_" name); [exact H|].
  fold (cgi name).
  destruct (is_content_key (cgi name)) eqn:Hc.
  - apply environ_ok_set; [exact H | now left].
  - destruct (get environ ("HTTP_" ++ cgi name));
      (apply environ_ok_set; [exact H | now apply key_ok_HTTP]).
Qed.

(** What holds at the start and is kept by every field holds for the
    environment. *)
Lemma fold_add_field (P : dict -> Prop) (fs : fields) (environ : dict) :
  (forall e f, P e -> P (add_field e f)) ->
  P environ -> P (fold_left add_field fs environ).
Proof.
  intros step. revert environ.
  induction fs as [|f fs IH]; simpl; intros e He; [exact He|].
  apply IH, step, He.
Qed.

Lemma environ_ok_fields (fs : fields) :
  environ_ok (fold_left add_field fs []).
Proof.
  apply (fold_add_field environ_ok); [apply environ_ok_add_field|].
  split; [constructor | intros ? ? []].
Qed.

Lemma key_ok_HTTP_HOST : key_ok "HTTP_HOST".
Proof. right. repeat split. Qed.

Lemma environ_ok_make (request_url : SplitResult) (fs : fields) :
  environ_ok (make_environ request_url fs).
Proof.
  unfold make_environ. destruct (_ && _); [|apply environ_ok_fields].
  apply environ_ok_set; [apply environ_ok_fields | apply key_ok_HTTP_HOST].
Qed.

Lemma environ_ok_environ (request : Request) : environ_ok (environ request).
Proof. apply environ_ok_make. Qed.

(** The host of an absolute request target touches the key HTTP_HOST and no
    other. *)
Lemma make_environ_get (request_url : SplitResult) (fs : fields)
  (key : string) :
  key <> "HTTP_HOST" ->
  get (make_environ request_url fs) key = get (fold_left add_field fs []) key.
Proof.
  intros H. unfold make_environ. destruct (_ && _); [|reflexivity].
  apply get_set_other. congruence.
Qed.

(** ** Looking up what iteration yields *)

Lemma yielded_HTTP (name value : string) :
  is_content_key name = false ->
  yielded ("HTTP_" ++ name, value) = [(shown name, value)].
Proof.
  intros H. unfold yielded. rewrite prefix_HTTP_app.
  change (String.eqb ("HTTP_" ++ name) "HTTP_CONTENT_TYPE")
    with (String.eqb name "CONTENT_TYPE").
  change (String.eqb ("HTTP_" ++ name) "HTTP_CONTENT_LENGTH")
    with (String.eqb name "CONTENT_LENGTH").
  unfold is_content_key in H. rewrite H. reflexivity.
Qed.

Lemma getitem_shown (environ : dict) (name : string) :
  cgi name = name -> is_content_key name = false ->
  getitem environ (shown name) =
    match get environ ("HTTP_" ++ name) with
    | Some value => inr value
    | None => inl KeyError
    end.
Proof.
  intros Hc Hn. unfold getitem. fold (cgi (shown name)).
  now rewrite cgi_shown, Hc, Hn.
Qed.

Lemma yielded_content (key value : string) :
  is_content_key key = true ->
  yielded (key, value) =
    if is_empty value then [] else [(shown key, value)].
Proof.
  intros H. apply is_content_key_cases in H as [-> | ->];
    now destruct value.
Qed.

Lemma getitem_shown_content (environ : dict) (key : string) :
  is_content_key key = true ->
  getitem environ (shown key) =
    match get environ key with
    | Some value => inr value
    | None => inl KeyError
    end.
Proof.
  intros H. apply is_content_key_cases in H as [-> | ->]; reflexivity.
Qed.

(** Every pair that iteration yields is found again by its name. *)
Lemma getitem_yielded (environ : dict) (key value name v : string) :
  environ_ok environ -> In (key, value) environ ->
  In (name, v) (yielded (key, value)) ->
  getitem environ name = inr v.
Proof.
  intros [Hnd Hok] Hin Hy.
  pose proof (In_get_NoDup _ _ _ Hnd Hin) as Hget.
  destruct (Hok _ _ Hin) as [Hc|(Hp & Hcgi & Hn)].
  - rewrite yielded_content in Hy by exact Hc.
    destruct (is_empty value); [destruct Hy|].
    destruct Hy as [[= <- <-]|[]].
    rewrite getitem_shown_content by exact Hc. now rewrite Hget.
  - apply prefix_HTTP in Hp. remember (drop 5 key) as K eqn:EK.
    clear EK. subst key.
    rewrite yielded_HTTP in Hy by exact Hn.
    destruct Hy as [[= <- <-]|[]].
    rewrite getitem_shown by assumption. now rewrite Hget.
Qed.

Lemma getitem_items (environ : dict) (name v : string) :
  environ_ok environ -> In (name, v) (items environ) ->
  getitem environ name = inr v.
Proof.
  intros Hok H. apply in_flat_map in H as ([key value] & Hin & Hy).
  now apply (getitem_yielded environ key value).
Qed.

(** ** [dict(obj)] *)

(** When every key can be looked up, [update] returns a dictionary, with
    distinct keys if it started from one, holding [obj[key]] for every
    key. *)
Lemma update_returns (getitem : string -> result string) (keys : list string)
  (d : dict) :
  (forall k, In k keys -> exists v, getitem k = inr v) ->
  exists d', update d getitem keys = inr d'.
Proof.
  revert d. induction keys as [|k keys IH]; intros d H; simpl.
  - now exists d.
  - destruct (H k (or_introl eq_refl)) as [v ->].
    apply IH. intros k' Hk'. apply H. now right.
Qed.


Lemma update_get (getitem : string -> result string) (keys : list string)
  (d d' : dict) (k v : string) :
  update d getitem keys = inr d' ->
  getitem k = inr v -> In k keys \/ get d k = Some v ->
  get d' k = Some v.
Proof.
  revert d. induction keys as [|k0 keys IH]; intros d; simpl.
  - intros [= ->] _ [[]|H]. exact H.
  - destruct (getitem k0) as [e|v0] eqn:E0; [discriminate|].
    intros H Hk Hcase. apply (IH _ H Hk).
    destruct (String.eqb_spec k0 k) as [->|Hne].
    + right. rewrite get_set_same. congruence.
    + destruct Hcase as [[Heq|Hin]|Hget]; [congruence | now left |].
      right. now rewrite get_set_other.
Qed.

Lemma update_length (getitem : string -> result string) (keys : list string)
  (d d' : dict) :
  update d getitem keys = inr d' ->
  (List.length d' <= List.length d + List.length keys)%nat.
Proof.
  revert d. induction keys as [|k keys IH]; intros d; simpl.
  - intros [= ->]. lia.
  - destruct (getitem k) as [e|v]; [discriminate|].
    intros H. apply IH in H. rewrite length_set in H.
    destruct (get d k); lia.
Qed.

(** ** What the environment holds for a field *)

Lemma is_content_key_HTTP (name : string) :
  is_content_key ("HTTP_" ++ name) = false.
Proof. reflexivity. Qed.

(** A later field leaves a header key in place; its value may grow at the
    end. *)
Lemma add_field_keeps (environ : dict) (f : string * string)
  (key s : string) :
  is_content_key key = false ->
  (exists v, get environ key = Some v /\ occurs_in s v) ->
  exists v, get (add_field environ f) key = Some v /\ occurs_in s v.
Proof.
  intros Hkey (v & Hget & Hs). destruct f as [name value]. unfold add_field.
  destruct (has_char "_" name); [now exists v|].
  fold (cgi name).
  destruct (is_content_key (cgi name)) eqn:Hc.
  - exists v. rewrite get_set_other; [auto | congruence].
  - destruct (String.eqb_spec ("HTTP_" ++ cgi name) key) as [E|Hne].
    + rewrite E, Hget, get_set_same.
      eexists; split; [reflexivity | now apply occurs_in_app_l].
    + exists v. destruct (get environ ("HTTP_" ++ cgi name));
        rewrite get_set_other by exact Hne; auto.
Qed.

(** A field whose name has no underscore and is not one of the two content
    headers leaves its value under its key. *)
Lemma add_field_puts (environ : dict) (name value : string) :
  has_char "_" name = false -> is_content_key (cgi name) = false ->
  exists v, get (add_field environ (name, value)) ("HTTP_" ++ cgi name) = Some v
            /\ occurs_in (remove_crlf value) v.
Proof.
  intros Hu Hc. unfold add_field. rewrite Hu. fold (cgi name). rewrite Hc.
  destruct (get environ ("HTTP_" ++ cgi name)) as [old|];
    rewrite get_set_same; eexists; (split; [reflexivity|]).
  - apply occurs_in_app_r, (occurs_in_app_r _ ","), occurs_in_refl.
  - apply occurs_in_refl.
Qed.

Lemma fold_add_field_holds (fs : fields) (environ : dict)
  (name value : string) :
  In (name, value) fs ->
  has_char "_" name = false -> is_content_key (cgi name) = false ->
  exists v, get (fold_left add_field fs environ) ("HTTP_" ++ cgi name) = Some v
            /\ occurs_in (remove_crlf value) v.
Proof.
  intros Hin Hu Hc. revert environ.
  induction fs as [|f fs IH]; [destruct Hin|]. intros environ.
  destruct Hin as [-> | Hin]; simpl; [|now apply IH].
  apply (fold_add_field
           (fun e => exists v, get e ("HTTP_" ++ cgi name) = Some v
                               /\ occurs_in (remove_crlf value) v)).
  - intros e f' He. apply add_field_keeps; [reflexivity | exact He].
  - now apply add_field_puts.
Qed.

(** ** The dictionary of the headers *)

(** [dict(request.headers)] does not raise. *)
Lemma dict_of_headers_returns (request : Request) :
  exists d, dict_of_headers request = inr d.
Proof.
  apply update_returns. intros k Hk.
  apply in_map_iff in Hk as ([k' v] & <- & Hk).
  exists v. apply getitem_items; [apply environ_ok_environ | exact Hk].
Qed.

(** The dictionary holds every field that is not skipped, a content header
    or the Host, under the name shown for its key; the value carried is part
    of the value logged. *)
Lemma dict_of_headers_holds (request : Request) (d : dict)
  (name value : string) :
  dict_of_headers request = inr d ->
  In (name, value) (header_fields request) ->
  has_char "_" name = false -> is_content_key (cgi name) = false ->
  cgi name <> "HOST" ->
  exists v, get d (shown (cgi name)) = Some v
            /\ occurs_in (remove_crlf value) v.
Proof.
  intros Hd Hin Hu Hc Hhost.
  destruct (fold_add_field_holds _ [] _ _ Hin Hu Hc) as (v & Hget & Hv).
  rewrite <- (make_environ_get (request_url request)) in Hget
    by (intros [= E]; now apply Hhost).
  fold (environ request) in Hget.
  exists v. split; [|exact Hv].
  assert (Hitem : In (shown (cgi name), v) (items (environ request))).
  { apply in_flat_map. exists ("HTTP_" ++ cgi name, v).
    split; [now apply get_In|].
    rewrite yielded_HTTP by exact Hc. now left. }
  apply (update_get _ _ _ _ _ _ Hd).
  - apply getitem_items; [apply environ_ok_environ | exact Hitem].
  - left. now apply (in_map fst) in Hitem.
Qed.


(** ** How many entries *)

Lemma settled_upper (environ : dict) (a b : string) :
  upper a = upper b -> settled environ a -> settled environ b.
Proof.
  intros H. unfold settled, environ_key.
  rewrite <- (has_underscore_upper a), <- (has_underscore_upper b), H.
  now rewrite (cgi_upper _ _ H).
Qed.

Lemma add_field_get (environ : dict) (f : string * string) (key : string) :
  get environ key <> None -> get (add_field environ f) key <> None.
Proof.
  intros H. destruct f as [name value]. unfold add_field.
  destruct (has_char "_" name); [exact H|].
  destruct (is_content_key _); [|destruct (get environ (_ ++ _))];
    rewrite get_set; destruct (String.eqb _ key); congruence.
Qed.

Lemma add_field_settled (environ : dict) (f : string * string)
  (name : string) :
  settled environ name -> settled (add_field environ f) name.
Proof. intros [H|H]; [now left | right; now apply add_field_get]. Qed.

Lemma add_field_settles (environ : dict) (name value : string) :
  settled (add_field environ (name, value)) name.
Proof.
  unfold settled, environ_key, add_field.
  destruct (has_char "_" name); [now left | right].
  fold (cgi name).
  destruct (is_content_key (cgi name));
    [|destruct (get environ ("HTTP_" ++ cgi name))];
    rewrite get_set_same; discriminate.
Qed.

Lemma add_field_length (environ : dict) (f : string * string) :
  (List.length (add_field environ f) <= S (List.length environ))%nat.
Proof.
  destruct f as [name value]. unfold add_field.
  destruct (has_char "_" name); [lia|].
  destruct (is_content_key _); [|destruct (get environ (_ ++ _)) eqn:E];
    rewrite length_set; try rewrite E; try destruct (get environ _); lia.
Qed.

Lemma add_field_length_settled (environ : dict) (name value : string) :
  settled environ name ->
  List.length (add_field environ (name, value)) = List.length environ.
Proof.
  unfold settled, environ_key, add_field.
  destruct (has_char "_" name); [reflexivity|].
  fold (cgi name). intros [H|H]; [discriminate|].
  destruct (is_content_key (cgi name)).
  - rewrite length_set. now destruct (get environ (cgi name)).
  - destruct (get environ ("HTTP_" ++ cgi name)) eqn:E; [|congruence].
    now rewrite length_set, E.
Qed.

Lemma fold_add_field_length (fs : fields) (environ : dict) :
  (List.length (fold_left add_field fs environ)
   <= List.length environ + List.length fs)%nat.
Proof.
  revert environ. induction fs as [|f fs IH]; intros e; simpl; [lia|].
  specialize (IH (add_field e f)). pose proof (add_field_length e f). lia.
Qed.

(** The loop over the header fields makes fewer entries than there are
    fields when a name is carried twice. *)
Lemma fold_add_field_length_twice (fs : fields) (name : string) :
  carried_twice fs name ->
  (List.length (fold_left add_field fs []) < List.length fs)%nat.
Proof.
  intros (l1 & n1 & v1 & l2 & n2 & v2 & l3 & -> & H1 & H2).
  rewrite fold_left_app. cbn [fold_left].
  rewrite fold_left_app. cbn [fold_left].
  set (e1 := fold_left add_field l1 []).
  set (e2 := fold_left add_field l2 (add_field e1 (n1, v1))).
  assert (Hs : settled e2 n2).
  { apply (settled_upper _ n1); [congruence|].
    apply (fold_add_field (fun e => settled e n1));
      [intros; now apply add_field_settled | apply add_field_settles]. }
  pose proof (fold_add_field_length l3 (add_field e2 (n2, v2))) as H3.
  rewrite (add_field_length_settled _ _ _ Hs) in H3.
  pose proof (fold_add_field_length l2 (add_field e1 (n1, v1))) as H4.
  fold e2 in H4.
  pose proof (add_field_length e1 (n1, v1)) as H5.
  pose proof (fold_add_field_length l1 []) as H6. fold e1 in H6.
  rewrite length_app. cbn [List.length]. rewrite length_app.
  cbn [List.length] in *. lia.
Qed.

(** ** One entry for a name *)







Lemma yielded_length (entry : string * string) :
  (List.length (yielded entry) <= 1)%nat.
Proof.
  destruct entry as [key value]. unfold yielded.
  destruct (_ && _); [simpl; lia|]. destruct (_ && _); simpl; lia.
Qed.

Lemma items_length (environ : dict) :
  (List.length (items environ) <= List.length environ)%nat.
Proof.
  unfold items. induction environ as [|entry e IH]; [simpl; lia|].
  cbn [flat_map List.length]. rewrite length_app.
  pose proof (yielded_length entry). lia.
Qed.

Lemma dict_of_headers_length (request : Request) (d : dict) :
  dict_of_headers request = inr d ->
  (List.length d <= List.length (environ request))%nat.
Proof.
  intros H. apply update_length in H. unfold keys in H.
  rewrite length_map in H. pose proof (items_length (environ request)).
  simpl in H. lia.
Qed.

End EnvFacts.

(* ------------------------------------------------------------------ *)
(** * Facts about logging *)

Module LoggingFacts.

Import Str Dict Logging Spec.

Lemma configured_loaded : configured App.loaded.
Proof. reflexivity. Qed.

Lemma root_write (s : stream) (chunk : text) (p : process) :
  root (write s chunk p) = root p.
Proof. now destruct s. Qed.

Lemma configured_write (s : stream) (chunk : text) (p : process) :
  configured p -> configured (write s chunk p).
Proof. unfold configured. now rewrite root_write. Qed.

(** With the root logger configured by the module, [logging.info] is one
    write to [sys.stderr]. *)
Lemma info_configured (msg : string) (args : list value) (message : text)
  (p : process) :
  configured p -> percent msg args = Some message ->
  info msg args p = write stderr (record message) p.
Proof.
  unfold configured, info, log. intros Hc Hm. rewrite Hc.
  cbn [App.loaded basicConfig fresh root handlers]. cbv zeta.
  rewrite Hc.
  cbn [App.loaded basicConfig fresh root handlers level callHandlers
       StreamHandler h_level h_stream levelno].
  change (INFO <=? INFO) with true. change (NOTSET <=? INFO) with true.
  cbv iota. unfold emit.
  cbn [Logging.msg Logging.args levelname name h_stream]. now rewrite Hm.
Qed.

Lemma percent_request (m p : text) :
  percent "Incoming request: %s %s" [VStr m; VStr p] =
    Some (py "Incoming request: " ++ m ++ py " " ++ p).
Proof. cbn. now rewrite app_nil_r. Qed.

Lemma percent_headers (d : dict) :
  percent "Headers: %s" [VDict d] =
    Some (py "Headers: " ++ py (repr_dict d)).
Proof. cbn -[repr_dict]. now rewrite app_nil_r. Qed.

Lemma percent_payload (t : text) :
  percent "Payload: %s" [VStr t] = Some (py "Payload: " ++ t).
Proof. cbn. now rewrite app_nil_r. Qed.

(** What a message holds, the record holds. *)
Lemma contains_record (message needle : text) :
  contains message needle = true -> contains (record message) needle = true.
Proof.
  intros H. unfold record, format.
  apply StrFacts.contains_app_l.
  repeat apply StrFacts.contains_app_r. exact H.
Qed.

End LoggingFacts.

(* ------------------------------------------------------------------ *)
(** * Facts about the application *)

Module AppFacts.

Import Str Dict Logging Werkzeug Flask App.
Import Spec StrFacts DictFacts EnvFacts LoggingFacts.

Lemma emitted_app (s : stream) (before after : process) (chunks : list text) :
  written s after = written s before ++ chunks ->
  emitted s before after = chunks.
Proof.
  unfold emitted. intros ->.
  rewrite skipn_app, skipn_all, Nat.sub_diag. reflexivity.
Qed.

(** ** Reading the body *)

(** Decoding with [errors="replace"] does not raise. *)
Lemma decode_replace_returns (rv : list Byte.byte) :
  exists payload, Utf8.decode Utf8.replace rv = inr payload.
Proof. apply Utf8Facts.decode_from_replace_returns. Qed.








(** Without a Content-Length and a Transfer-Encoding nothing is read. *)
Lemma get_data_unannounced (request : Request) :
  get (environ request) "HTTP_TRANSFER_ENCODING" = None ->
  get (environ request) "CONTENT_LENGTH" = None ->
  get_data request = inr [].
Proof.
  intros Hte Hcl.
  unfold get_data, get_input_stream, input_terminated, get_str,
    get_content_length.
  now rewrite Hte, Hcl.
Qed.

Lemma read_chunk_len_raises (line : list Byte.byte) (e : exn) :
  read_chunk_len line = inl e -> e = OSError.
Proof.
  unfold read_chunk_len.
  destruct (int_16 _) as [[negative len]|]; [|now intros [= <-]].
  destruct (negative && negb (len =? 0)); [now intros [= <-] | discriminate].
Qed.

Lemma read_chunks_raises (fuel : nat) (rfile : list Byte.byte) (e : exn) :
  read_chunks fuel rfile = inl e -> e = OSError.
Proof.
  revert rfile. induction fuel as [|fuel IH]; intros rfile; simpl;
    [now intros [= <-]|].
  destruct (readline rfile) as [line rest].
  destruct (read_chunk_len line) as [e'|len] eqn:E.
  - intros [= <-]. now apply (read_chunk_len_raises line).
  - destruct (readline _) as [terminator rest'].
    destruct (is_terminator terminator); [|now intros [= <-]].
    destruct (len =? 0); [discriminate|].
    destruct (read_chunks fuel rest') as [e'|chunks] eqn:E'; [|discriminate].
    intros [= <-]. now apply (IH rest').
Qed.

(** Reading the body raises one of two exceptions, and decoding it none. *)
Lemma get_data_raises (request : Request) (e : exn) :
  get_data request = inl e -> e = ClientDisconnected \/ e = OSError.
Proof.
  unfold get_data, get_input_stream.
  destruct (input_terminated _).
  - intros H. right. now apply (read_chunks_raises _ _ _ H).
  - destruct (get_content_length _) as [n|]; [|discriminate].
    unfold LimitedStream. destruct (_ <=? _); [discriminate|].
    intros [= <-]. now left.
Qed.

Lemma get_data_as_text_raises (request : Request) (e : exn) :
  get_data_as_text request = inl e -> e = ClientDisconnected \/ e = OSError.
Proof.
  unfold get_data_as_text.
  destruct (get_data request) as [e'|rv] eqn:E.
  - intros [= <-]. now apply (get_data_raises request).
  - destruct (decode_replace_returns rv) as [t ->]. discriminate.
Qed.

(** ** The view *)

(** What [home] returns is decided by the method and, for POST, by the
    reading of the body. *)
Lemma home_outcome (request : Request) (p : process) :
  fst (home request p) = outcome request (get_data_as_text request).
Proof.
  unfold home, outcome, bind, effect, pure, ret.
  destruct (dict_of_headers_returns request) as [d ->].
  destruct (String.eqb (method request) "POST"); [|reflexivity].
  now destruct (get_data_as_text request).
Qed.


(** So it does whenever it returns. *)
Lemma home_returned (request : Request) (p : process) (rv : dict * N) :
  fst (home request p) = inr rv -> rv = (ACK, 200).
Proof.
  rewrite home_outcome. unfold outcome.
  destruct (String.eqb (method request) "POST");
    [destruct (get_data_as_text request)|]; congruence.
Qed.

(** With logging configured, [home] appends its records to [sys.stderr]
    and changes nothing else. *)
Lemma home_runs (request : Request) (p : process) (d : dict) :
  dict_of_headers request = inr d -> configured p ->
  home request p =
    (outcome request (get_data_as_text request),
     {| sys_stdout := sys_stdout p;
        sys_stderr :=
          sys_stderr p ++ records request d (get_data_as_text request);
        root := root p |}).
Proof.
  intros Hd Hc. unfold home, outcome, bind, effect, pure, ret, records.
  rewrite Hd.
  rewrite (info_configured _ _ _ p Hc (percent_request _ _)).
  fold (request_record request).
  set (p1 := write stderr (request_record request) p).
  assert (Hc1 : configured p1) by now apply configured_write.
  rewrite (info_configured _ _ _ p1 Hc1 (percent_headers d)).
  fold (headers_record d).
  set (p2 := write stderr (headers_record d) p1).
  assert (Hc2 : configured p2) by now apply configured_write.
  destruct (String.eqb (method request) "POST").
  - destruct (get_data_as_text request) as [e|t].
    + unfold p2, p1, write. cbn [sys_stdout sys_stderr root].
      now rewrite <- !app_assoc.
    + rewrite (info_configured _ _ _ p2 Hc2 (percent_payload t)).
      fold (payload_record t). unfold p2, p1, write, ACK.
      cbn [sys_stdout sys_stderr root]. now rewrite <- !app_assoc.
  - unfold p2, p1, write, ACK. cbn [sys_stdout sys_stderr root].
    now rewrite <- !app_assoc.
Qed.

(** ** The records of [home] *)

Lemma log_records_configured (p p' : process) :
  configured p -> log_records p p' = emitted stderr p p'.
Proof. unfold configured, log_records, log_stream. now intros ->. Qed.

Lemma logged_configured (p p' : process) :
  configured p -> logged p p' = List.concat (emitted stderr p p').
Proof. intros Hc. unfold logged. now rewrite log_records_configured. Qed.

Lemma contains_refl (t : text) : contains t t = true.
Proof.
  rewrite <- (app_nil_r t) at 1. apply (contains_intro [] t []).
Qed.

(** What [home] writes, read off the two states. *)
Lemma emitted_home (request : Request) (p : process) (d : dict) :
  configured p -> dict_of_headers request = inr d ->
  emitted stderr p (snd (home request p))
  = records request d (get_data_as_text request)
  /\ emitted stdout p (snd (home request p)) = []
  /\ root (snd (home request p)) = root p.
Proof.
  intros Hc Hd. rewrite (home_runs _ _ _ Hd Hc). cbn [snd].
  split; [|split]; [apply emitted_app; reflexivity | | reflexivity].
  unfold emitted. cbn [written sys_stdout]. apply skipn_all.
Qed.

Lemma home_configured (request : Request) (p : process) :
  configured p -> configured (snd (home request p)).
Proof.
  intros Hc. destruct (dict_of_headers_returns request) as [d Hd].
  now rewrite (home_runs _ _ _ Hd Hc).
Qed.

Lemma request_record_method (request : Request) :
  contains (request_record request) (py (method request)) = true.
Proof.
  apply contains_record, contains_app_r, contains_app_l, contains_refl.
Qed.

Lemma request_record_path (request : Request) :
  contains (request_record request) (path request) = true.
Proof.
  apply contains_record.
  do 3 apply contains_app_r. apply contains_refl.
Qed.

Lemma headers_record_contains (d : dict) (s : string) :
  occurs_in s (repr_dict d) ->
  contains (headers_record d) (py s) = true.
Proof.
  intros H. apply contains_record, contains_app_r.
  now apply occurs_in_contains.
Qed.


(** The first two records are there whatever becomes of the body. *)
Lemma records_start (request : Request) (d : dict) (r : result text) :
  exists rest, records request d r
               = request_record request :: headers_record d :: rest.
Proof. unfold records. eexists. reflexivity. Qed.

Lemma records_post (request : Request) (d : dict) (t : text) :
  method request = "POST"%string ->
  records request d (inr t)
  = [request_record request; headers_record d; payload_record t].
Proof. intros H. unfold records. now rewrite H. Qed.

Lemma records_raised (request : Request) (d : dict) (e : exn) :
  records request d (inl e) = [request_record request; headers_record d].
Proof. unfold records. now destruct (String.eqb (method request) "POST"). Qed.

Lemma records_other (request : Request) (d : dict) (r : result text) :
  method request <> "POST"%string ->
  records request d r = [request_record request; headers_record d].
Proof.
  intros H. unfold records.
  now destruct (String.eqb_spec (method request) "POST").
Qed.


(** ** Routing *)

Lemma url_map_routed (view : View) :
  url_map (routed view) = [static_rule; home_rule].
Proof. reflexivity. Qed.

Lemma view_functions_routed (view : View) :
  view_functions (routed view)
  = [("home"%string, view); ("static"%string, send_static_file)].
Proof. reflexivity. Qed.

Lemma text_eqb_refl (t : text) : text_eqb t t = true.
Proof. induction t as [|c t IH]; simpl; [reflexivity|]. now rewrite N.eqb_refl. Qed.

(** A rule that is found is a rule of the map. *)
Lemma match_rules_In (rules : list Rule) (path : text) (method : string)
  (ws : bool) (seen : NoMatch) (r : Rule) :
  match_rules rules path method ws seen = inl r -> In r rules.
Proof.
  revert seen. induction rules as [|r0 rules IH]; intros seen; simpl;
    [discriminate|].
  destruct (rule_matches _ _); [|intros H; right; now apply (IH seen)].
  destruct (negb (member _ _)); [intros H; right; now apply (IH _ H)|].
  destruct (negb (Bool.eqb _ _)); [intros H; right; now apply (IH _ H)|].
  intros [= ->]. now left.
Qed.

Lemma match_request_In (view : View) (request : Request) (r : Rule) :
  match_request (routed view) request = inr r ->
  r = static_rule \/ r = home_rule.
Proof.
  unfold match_request, MapAdapter_match. rewrite url_map_routed.
  destruct (match_rules _ (path request) _ _ _) as [r0|seen] eqn:E.
  - intros [= <-]. apply match_rules_In in E.
    destruct E as [<-|[<-|[]]]; auto.
  - destruct (match_rules _ (merge_slashes _) _ _ _); [discriminate|].
    destruct (have_match_for _); [discriminate|].
    destruct (websocket_mismatch _); discriminate.
Qed.

(** The exceptions of the routing are HTTP exceptions. *)
Lemma match_request_raises (a : App) (request : Request) (e : exn) :
  match_request a request = inl e -> exists c, code e = Some c.
Proof.
  unfold match_request, MapAdapter_match.
  destruct (match_rules _ (path request) _ _ _); [discriminate|].
  destruct (match_rules _ (merge_slashes _) _ _ _);
    [intros [= <-]; now eexists|].
  destruct (have_match_for _); [intros [= <-]; now eexists|].
  destruct (websocket_mismatch _); intros [= <-]; now eexists.
Qed.

(** The routing looks at the path, the method and the environment, and not
    at the view under a rule. *)
Lemma match_request_view (v1 v2 : View) (request : Request) :
  match_request (routed v1) request = match_request (routed v2) request.
Proof. reflexivity. Qed.


(** A request that reaches the rule of [home] is dispatched: OPTIONS to
    Flask's own answer, any other method to the view. *)
Lemma dispatch_request_routed (view : View) (request : Request) :
  match_request (routed view) request = inr home_rule ->
  dispatch_request (routed view) request =
    if String.eqb (method request) "OPTIONS"
    then ret default_options_response
    else rv <- view request ;; ret (make_response rv).
Proof.
  intros H. unfold dispatch_request. rewrite H, view_functions_routed.
  reflexivity.
Qed.

(** A request that reaches the rule of the static files is answered by
    Flask for OPTIONS and is not found otherwise. *)
Lemma dispatch_request_static (view : View) (request : Request) :
  match_request (routed view) request = inr static_rule ->
  dispatch_request (routed view) request =
    if String.eqb (method request) "OPTIONS"
    then ret default_options_response
    else pure (inl NotFound).
Proof.
  intros H. unfold dispatch_request. rewrite H, view_functions_routed.
  cbn [provide_automatic_options static_rule endpoint view_function andb
       String.eqb Ascii.eqb Bool.eqb].
  destruct (String.eqb (method request) "OPTIONS"); reflexivity.
Qed.

(** A request that the routing refuses is answered with the code of the
    exception, and the process is left as it was. *)
Lemma dispatch_request_refused (a : App) (request : Request) (e : exn) :
  match_request a request = inl e ->
  dispatch_request a request = pure (inl e).
Proof. intros H. unfold dispatch_request. now rewrite H. Qed.

(** ** The answers of the application *)

(** The answer to what the view returns or raises, for a method other than
    HEAD. *)
Lemma wsgi_app_home (view : View) (request : Request) (p : process) :
  match_request (routed view) request = inr home_rule ->
  String.eqb (method request) "OPTIONS" = false ->
  String.eqb (method request) "HEAD" = false ->
  wsgi_app (routed view) request p =
    match view request p with
    | (inr rv, p') => (make_response rv, p')
    | (inl e, p') =>
        match code e with
        | Some c => (error_response c, p')
        | None => (error_response 500, log_exception (routed view) request p')
        end
    end.
Proof.
  intros Hr Ho Hh. unfold wsgi_app.
  rewrite (dispatch_request_routed view request Hr), Ho, Hh.
  unfold bind, ret. destruct (view request p) as [[e|rv] p']; [|reflexivity].
  now destruct (code e).
Qed.

(** GET and POST requests that reach [home] and are not cut short are
    answered with the acknowledgement. *)
Lemma serve_home (request : Request) (p : process) :
  handled request -> returns (fst (home request p)) ->
  serve request p = (acknowledgement, snd (home request p)).
Proof.
  intros [Hr Hm] [rv Hrv]. unfold serve, app.
  rewrite (wsgi_app_home home request p Hr);
    try (destruct Hm as [-> | ->]; reflexivity).
  apply home_returned in Hrv as Hack. subst rv.
  destruct (home request p) as [[e|rv] p']; simpl in Hrv; [discriminate|].
  now injection Hrv as ->.
Qed.

(** The record of an exception that is not an HTTP exception. *)
Lemma log_exception_configured (view : View) (request : Request)
  (p : process) :
  configured p ->
  log_exception (routed view) request p
  = write stderr (exception_record request) p.
Proof.
  unfold configured, log_exception, log. intros Hc. rewrite Hc.
  cbn [App.loaded basicConfig fresh root handlers level callHandlers
       StreamHandler h_level h_stream levelno].
  change (INFO <=? ERROR) with true. change (NOTSET <=? ERROR) with true.
  cbv iota. unfold emit.
  cbn [Logging.msg Logging.args levelname Logging.name h_stream Flask.name
       routed route add_url_rule flask_app Flask].
  cbn [percent Ascii.eqb Bool.eqb option_map str]. unfold exception_record.
  cbn -[format terminator]. reflexivity.
Qed.

(** What serving a request writes is decided by the request alone: with
    logging configured, the chunks are appended to [sys.stderr] and nothing
    else is changed. *)
Lemma serve_writes (request : Request) :
  exists chunks, forall p, configured p ->
    snd (serve request p) =
      {| sys_stdout := sys_stdout p;
         sys_stderr := sys_stderr p ++ chunks;
         root := root p |}.
Proof.
  assert (Hnone : forall response : Response, exists chunks : list text,
            forall p, configured p ->
              snd (response, p) =
                {| sys_stdout := sys_stdout p;
                   sys_stderr := sys_stderr p ++ chunks;
                   root := root p |}).
  { intros response. exists []. intros p _. rewrite app_nil_r.
    now destruct p. }
  unfold serve, app, wsgi_app.
  destruct (match_request (routed home) request) as [e|r] eqn:Hr.
  - rewrite (dispatch_request_refused _ _ _ Hr). unfold pure.
    destruct (match_request_raises _ _ _ Hr) as [c ->].
    destruct (Hnone (error_response c)) as [chunks H]. exists chunks.
    intros p Hc. now rewrite <- (H p Hc).
  - destruct (match_request_In home request r Hr) as [-> | ->].
    + rewrite (dispatch_request_static _ _ Hr).
      destruct (Hnone default_options_response) as [chunks H]. exists chunks.
      intros p Hc. rewrite <- (H p Hc).
      now destruct (String.eqb (method request) "OPTIONS").
    + rewrite (dispatch_request_routed _ _ Hr).
      destruct (String.eqb (method request) "OPTIONS").
      { destruct (Hnone default_options_response) as [chunks H].
        exists chunks. intros p Hc. now rewrite <- (H p Hc). }
      destruct (dict_of_headers_returns request) as [d Hd].
      unfold bind, ret.
      destruct (outcome request (get_data_as_text request)) as [e|rv] eqn:Ho.
      * destruct (code e) as [c|] eqn:Hcode.
        { exists (records request d (get_data_as_text request)).
          intros p Hc. rewrite (home_runs _ _ _ Hd Hc), Ho, Hcode.
          reflexivity. }
        exists (records request d (get_data_as_text request)
                ++ [exception_record request]).
        intros p Hc. rewrite (home_runs _ _ _ Hd Hc), Ho, Hcode. cbn [snd].
        rewrite log_exception_configured by exact Hc.
        unfold write. cbn [sys_stdout sys_stderr root].
        now rewrite <- app_assoc.
      * exists (records request d (get_data_as_text request)).
        intros p Hc. now rewrite (home_runs _ _ _ Hd Hc), Ho.
Qed.

(** The configuration of the root logger is the same after every
    request. *)
Lemma serve_configured (request : Request) (p : process) :
  configured p -> configured (snd (serve request p)).
Proof.
  intros Hc. destruct (serve_writes request) as [chunks H].
  now rewrite (H p Hc).
Qed.

(** So it is the one the module sets, however many requests have been
    served. *)
Lemma run_configured (requests : list Request) (p : process) :
  configured p -> configured (run requests p).
Proof.
  revert p. induction requests as [|request requests IH]; intros p Hc;
    [exact Hc|].
  apply IH, serve_configured, Hc.
Qed.

End AppFacts.

(* ------------------------------------------------------------------ *)
(** * Further facts: what the answer and the records depend on *)

Module RouteFacts.

Import Str Dict Logging Werkzeug Flask App Spec.
Import StrFacts DictFacts EnvFacts LoggingFacts AppFacts.

Lemma text_eqb_eq (a b : text) : text_eqb a b = true -> a = b.
Proof.
  revert b. induction a as [|x a IH]; intros [|y b]; simpl;
    try discriminate; [reflexivity|].
  intros H. apply andb_prop in H as [Hxy H].
  apply N.eqb_eq in Hxy as ->. now rewrite (IH b H).
Qed.

(** [home] reads the method, the path, the environment made of the header
    fields and, for POST, the body; nothing else of the request. *)
Lemma home_reads (r1 r2 : Request) (p : process) :
  method r1 = method r2 -> path r1 = path r2 -> environ r1 = environ r2 ->
  (method r2 = "POST"%string -> data r1 = data r2) ->
  home r1 p = home r2 p.
Proof.
  intros Hm Hp He Hd.
  unfold home, dict_of_headers, get_data_as_text, get_data.
  rewrite Hm, Hp, He.
  destruct (String.eqb_spec (method r2) "POST") as [E|_];
    [now rewrite (Hd E) | reflexivity].
Qed.

(** The same holds of the application as a whole. *)
Lemma serve_reads (r1 r2 : Request) (p : process) :
  method r1 = method r2 -> path r1 = path r2 -> environ r1 = environ r2 ->
  (method r2 = "POST"%string -> data r1 = data r2) ->
  serve r1 p = serve r2 p.
Proof.
  intros Hm Hp He Hd.
  assert (Hr : match_request app r1 = match_request app r2)
    by (unfold match_request; now rewrite Hm, Hp, He).
  unfold serve, wsgi_app, app in *.
  destruct (match_request (routed home) r2) as [e|r] eqn:E.
  - rewrite (dispatch_request_refused _ _ _ Hr),
            (dispatch_request_refused _ _ _ E).
    unfold pure. destruct (match_request_raises _ _ _ E) as [c ->].
    now rewrite Hm.
  - destruct (match_request_In home r2 r E) as [-> | ->].
    + rewrite (dispatch_request_static _ _ Hr),
              (dispatch_request_static _ _ E).
      rewrite Hm. now destruct (String.eqb (method r2) "OPTIONS").
    + rewrite (dispatch_request_routed _ _ Hr),
              (dispatch_request_routed _ _ E).
      rewrite Hm. destruct (String.eqb (method r2) "OPTIONS"); [reflexivity|].
      unfold bind, log_exception.
      now rewrite (home_reads r1 r2 p Hm Hp He Hd), ?Hm, ?Hp.
Qed.

(** Serving a request appends what the request writes to [sys.stderr],
    whatever was written before, and changes nothing else. *)
Lemma serve_appends (request : Request) (p : process) :
  configured p ->
  snd (serve request p) =
    {| sys_stdout := sys_stdout p;
       sys_stderr := sys_stderr p ++ writes request;
       root := root p |}.
Proof.
  intros Hc. destruct (serve_writes request) as [chunks H].
  unfold writes. rewrite (H loaded configured_loaded), (H p Hc).
  set (after := {| sys_stdout := sys_stdout loaded;
                   sys_stderr := sys_stderr loaded ++ chunks;
                   root := root loaded |}).
  now rewrite (emitted_app stderr loaded after chunks) by reflexivity.
Qed.

Lemma run_appends (requests : list Request) (p : process) :
  configured p ->
  run requests p =
    {| sys_stdout := sys_stdout p;
       sys_stderr := sys_stderr p ++ flat_map writes requests;
       root := root p |}.
Proof.
  revert p. induction requests as [|request requests IH]; intros p Hc.
  - simpl. rewrite app_nil_r. now destruct p.
  - change (run (request :: requests) p)
      with (run requests (snd (serve request p))).
    rewrite IH by now apply serve_configured.
    rewrite (serve_appends request p Hc). cbn [sys_stdout sys_stderr root].
    cbn [flat_map]. now rewrite app_assoc.
Qed.

(** The letter case of a field name does not reach the environment. *)
Lemma add_field_upper (environ : dict) (n1 n2 value : string) :
  upper n1 = upper n2 ->
  add_field environ (n1, value) = add_field environ (n2, value).
Proof.
  intros H. unfold add_field.
  rewrite <- (has_underscore_upper n1), <- (has_underscore_upper n2), H.
  reflexivity.
Qed.

Lemma make_environ_same_fields (request_url : SplitResult)
  (fs1 fs2 : fields) :
  same_fields fs1 fs2 ->
  make_environ request_url fs1 = make_environ request_url fs2.
Proof.
  intros H. unfold make_environ.
  assert (E : forall e, fold_left add_field fs1 e = fold_left add_field fs2 e).
  { induction H as [|[n1 v1] [n2 v2] fs1 fs2 [Hn Hv] _ IH]; intros e;
      [reflexivity|].
    cbn [fold_left fst snd] in *. subst v2.
    now rewrite (add_field_upper e n1 n2 v1 Hn). }
  now rewrite E.
Qed.

(** Nor does a field with an underscore in its name. *)
Lemma make_environ_underscore (request_url : SplitResult) (l1 l2 : fields)
  (name value : string) :
  has_char "_" name = true ->
  make_environ request_url (l1 ++ (name, value) :: l2)
  = make_environ request_url (l1 ++ l2).
Proof.
  intros H. unfold make_environ. rewrite !fold_left_app.
  cbn [fold_left].
  assert (E : add_field (fold_left add_field l1 []) (name, value)
              = fold_left add_field l1 [])
    by (unfold add_field at 1; now rewrite H).
  now rewrite E.
Qed.

(** ** Paths that no rule is for *)






End RouteFacts.

(* ------------------------------------------------------------------ *)
(** * Further facts: the dictionary of the headers *)

Module HeaderFacts.

Import Str Dict Logging Werkzeug Flask App Spec.
Import StrFacts DictFacts EnvFacts LoggingFacts AppFacts.

Local Open Scope string_scope.

Lemma get_app (d1 d2 : dict) (k : string) :
  get (d1 ++ d2)%list k =
    match get d1 k with
    | Some v => Some v
    | None => get d2 k
    end.
Proof.
  induction d1 as [|[k0 v0] d1 IH]; simpl; [reflexivity|].
  now destruct (String.eqb k0 k).
Qed.

(** Setting a key that is not there adds the entry at the end. *)
Lemma set_fresh (d : dict) (k v : string) :
  get d k = None -> set d k v = (d ++ [(k, v)])%list.
Proof.
  induction d as [|[k0 v0] d IH]; simpl; [reflexivity|].
  destruct (String.eqb k0 k); [discriminate|].
  intros H. now rewrite IH.
Qed.

Lemma get_None_keys (d : dict) (k : string) :
  ~ In k (map fst d) -> get d k = None.
Proof.
  intros H. destruct (get d k) as [v|] eqn:E; [|reflexivity].
  exfalso. apply H. apply get_In in E. now apply (in_map fst) in E.
Qed.

(** [dict(obj)] of distinct keys, each looked up to its own value, is the
    pairs themselves, in their order. *)
Lemma update_fresh (getitem : string -> result string) (l d : dict) :
  NoDup (map fst l) ->
  (forall k v, In (k, v) l -> getitem k = inr v) ->
  (forall k, In k (map fst l) -> get d k = None) ->
  update d getitem (map fst l) = inr (d ++ l)%list.
Proof.
  revert d. induction l as [|[k v] l IH]; intros d Hnd Hg Hd; simpl.
  - now rewrite app_nil_r.
  - inversion Hnd as [|? ? Hnotin Hnd']; subst.
    rewrite (Hg k v (or_introl eq_refl)).
    rewrite set_fresh by (apply Hd; now left).
    rewrite IH; [now rewrite <- app_assoc | exact Hnd' | |].
    + intros k' v' H. apply Hg. now right.
    + intros k' Hk'. rewrite get_app, (Hd k' (or_intror Hk')). simpl.
      destruct (String.eqb_spec k k') as [->|_]; [contradiction | reflexivity].
Qed.

(** A name that iteration yields tells the key it was yielded for. *)
Lemma yielded_key (key value k v : string) :
  key_ok key -> In (k, v) (yielded (key, value)) -> key = environ_key k.
Proof.
  intros [Hc|(Hp & Hcgi & Hn)] Hy.
  - rewrite yielded_content in Hy by exact Hc.
    destruct (is_empty value); [destruct Hy|].
    destruct Hy as [[= <- <-]|[]].
    apply is_content_key_cases in Hc as [-> | ->]; reflexivity.
  - apply prefix_HTTP in Hp. remember (drop 5 key) as K eqn:EK.
    clear EK. subst key.
    rewrite yielded_HTTP in Hy by exact Hn.
    destruct Hy as [[= <- <-]|[]].
    unfold environ_key. now rewrite cgi_shown, Hcgi, Hn.
Qed.

(** The names that iteration yields are distinct. *)
Lemma items_NoDup (environ : dict) :
  NoDup (map fst environ) ->
  (forall key value, In (key, value) environ -> key_ok key) ->
  NoDup (map fst (items environ)).
Proof.
  unfold items. induction environ as [|[key value] e IH]; intros Hnd Hok;
    [constructor|].
  inversion Hnd as [|? ? Hnotin Hnd']; subst.
  assert (IH' : NoDup (map fst (flat_map yielded e)))
    by (apply IH; [exact Hnd' | intros k v H; apply (Hok k v); now right]).
  cbn [flat_map]. rewrite map_app.
  pose proof (yielded_length (key, value)) as Hlen.
  destruct (yielded (key, value)) as [|[k v] [|x l]] eqn:E;
    [exact IH' | | simpl in Hlen; lia].
  cbn [map fst app]. constructor; [|exact IH'].
  intros Hin. apply in_map_iff in Hin as ([k' v'] & Hk & Hin).
  cbn [fst] in Hk. subst k'.
  apply in_flat_map in Hin as ([key' value'] & Hin' & Hy).
  apply yielded_key in Hy; [|apply (Hok key' value'); now right].
  assert (Hkey : key = environ_key k).
  { apply (yielded_key key value k v);
      [apply (Hok key value); now left | rewrite E; now left]. }
  apply Hnotin. rewrite Hkey, <- Hy. now apply (in_map fst) in Hin'.
Qed.

(** [dict(request.headers)] is the pairs of [request.headers], each of
    them, in their order. *)
Lemma dict_of_headers_items (request : Request) :
  dict_of_headers request = inr (items (environ request)).
Proof.
  unfold dict_of_headers, keys.
  destruct (environ_ok_environ request) as [Hnd Hok].
  rewrite (update_fresh _ (items (environ request)) []); [reflexivity | | |].
  - now apply items_NoDup.
  - intros k v H. apply getitem_items; [|exact H].
    apply environ_ok_environ.
  - reflexivity.
Qed.

Lemma dict_of_headers_items_NoDup (request : Request) :
  NoDup (map fst (items (environ request))).
Proof.
  destruct (environ_ok_environ request) as [Hnd Hok].
  now apply items_NoDup.
Qed.

(** ** The value kept for a name *)

Lemma join_cons (sep p : string) (rest : list string) :
  rest <> [] -> join sep (p :: rest) = p ++ sep ++ join sep rest.
Proof. now destruct rest. Qed.

Lemma values_of_cons (name n v : string) (fs : fields) :
  values_of name ((n, v) :: fs) =
    if negb (has_char "_" n) && String.eqb (cgi n) (cgi name)
    then remove_crlf v :: values_of name fs
    else values_of name fs.
Proof.
  unfold values_of. cbn [filter fst snd].
  now destruct (negb (has_char "_" n) && String.eqb (cgi n) (cgi name)).
Qed.

(** What the environment holds under the key of a name after more fields:
    what it held, and the values of the name carried since, each after a
    comma. *)
Lemma fold_add_field_get (name : string) (fs : fields) (e : dict) :
  is_content_key (cgi name) = false ->
  get (fold_left add_field fs e) ("HTTP_" ++ cgi name) =
    match values_of name fs with
    | [] => get e ("HTTP_" ++ cgi name)
    | v :: vs =>
        Some match get e ("HTTP_" ++ cgi name) with
             | Some old => old ++ "," ++ join "," (v :: vs)
             | None => join "," (v :: vs)
             end
    end.
Proof.
  intros Hname. revert e.
  induction fs as [|[n v] fs IH]; intros e; [reflexivity|].
  cbn [fold_left]. rewrite IH, values_of_cons. clear IH.
  unfold add_field. destruct (has_char "_" n); [reflexivity|].
  fold (cgi n). cbn [negb andb].
  destruct (is_content_key (cgi n)) eqn:Hc.
  - destruct (String.eqb_spec (cgi n) (cgi name)) as [E|_];
      [congruence|].
    rewrite get_set_other; [reflexivity|].
    intros E. rewrite E in Hc. discriminate Hc.
  - destruct (String.eqb_spec (cgi n) (cgi name)) as [E|Hne].
    + rewrite E.
      destruct (get e ("HTTP_" ++ cgi name)) as [old|];
        rewrite get_set_same;
        destruct (values_of name fs) as [|w ws] eqn:Ev; try reflexivity;
        rewrite (join_cons "," (remove_crlf v) (w :: ws)) by discriminate;
        now rewrite ?append_assoc.
    + assert (Hk : "HTTP_" ++ cgi n <> "HTTP_" ++ cgi name)
        by (intros [= E]; contradiction).
      destruct (get e ("HTTP_" ++ cgi n));
        now rewrite get_set_other by exact Hk.
Qed.

(** The value that the dictionary of the headers holds for a name that the
    request carries: the values, joined.  The Host is left out when the
    request target is absolute, and names it then. *)
Lemma dict_of_headers_joined (request : Request) (name : string) :
  is_content_key (cgi name) = false ->
  cgi name <> "HOST" \/ absolute (request_url request) = false ->
  values_of name (header_fields request) <> [] ->
  get (items (environ request)) (shown (cgi name))
  = Some (join "," (values_of name (header_fields request))).
Proof.
  intros Hname Hhost Hvalues.
  apply In_get_NoDup; [apply dict_of_headers_items_NoDup|].
  apply in_flat_map.
  exists ("HTTP_" ++ cgi name,
          join "," (values_of name (header_fields request))).
  split; [|rewrite yielded_HTTP by exact Hname; now left].
  apply get_In.
  assert (E : get (environ request) ("HTTP_" ++ cgi name)
              = get (fold_left add_field (header_fields request) [])
                    ("HTTP_" ++ cgi name)).
  { unfold environ, make_environ. fold (absolute (request_url request)).
    destruct Hhost as [Hhost| ->]; [|reflexivity].
    destruct (absolute _); [|reflexivity].
    apply get_set_other. intros [= E]. now apply Hhost. }
  rewrite E, (fold_add_field_get name _ [] Hname).
  destruct (values_of name (header_fields request)); [contradiction|].
  reflexivity.
Qed.

(** The Host that is logged for a request with an absolute target is the
    host of the target. *)
Lemma dict_of_headers_host (request : Request) :
  absolute (request_url request) = true ->
  get (items (environ request)) "Host" = Some (netloc (request_url request)).
Proof.
  intros H. apply In_get_NoDup; [apply dict_of_headers_items_NoDup|].
  apply in_flat_map. exists ("HTTP_HOST", netloc (request_url request)).
  split; [|now left].
  apply get_In. unfold environ, make_environ.
  fold (absolute (request_url request)). rewrite H. apply get_set_same.
Qed.




(** ** What [repr] writes *)

Lemma all_chars_app (test : ascii -> bool) (a b : string) :
  all_chars test (a ++ b) = all_chars test a && all_chars test b.
Proof.
  induction a as [|c a IH]; simpl; [reflexivity|].
  now rewrite IH, andb_assoc.
Qed.

Lemma escape_printable (q c : ascii) :
  q = single_quote \/ q = double_quote ->
  all_chars is_printable (escape q c) = true.
Proof. intros [-> | ->]; each_char c; reflexivity. Qed.

Lemma escape_all_printable (q : ascii) (s : string) :
  q = single_quote \/ q = double_quote ->
  all_chars is_printable (escape_all q s) = true.
Proof.
  intros Hq. induction s as [|c s IH]; simpl; [reflexivity|].
  now rewrite all_chars_app, escape_printable, IH.
Qed.

Lemma repr_printable (s : string) : all_chars is_printable (repr s) = true.
Proof.
  unfold repr. pose proof (quote_for_cases s) as Hq.
  cbn [all_chars]. rewrite all_chars_app, escape_all_printable by exact Hq.
  destruct Hq as [-> | ->]; reflexivity.
Qed.

Lemma join_printable (parts : list string) :
  (forall p, In p parts -> all_chars is_printable p = true) ->
  all_chars is_printable (join ", " parts) = true.
Proof.
  induction parts as [|p parts IH]; intros H; [reflexivity|].
  destruct parts as [|q parts]; [apply H; now left|].
  rewrite join_cons by discriminate.
  rewrite !all_chars_app, (H p (or_introl eq_refl)), IH; [reflexivity|].
  intros p' Hp'. apply H. now right.
Qed.

Lemma repr_dict_printable (d : dict) :
  all_chars is_printable (repr_dict d) = true.
Proof.
  unfold repr_dict. cbn [append all_chars].
  rewrite all_chars_app, join_printable; [reflexivity|].
  intros p Hp. apply in_map_iff in Hp as ([k v] & <- & _).
  unfold repr_item. cbn [fst snd].
  now rewrite !all_chars_app, !repr_printable.
Qed.

End HeaderFacts.

(* ------------------------------------------------------------------ *)
(** * Further facts: the text that the decoder returns *)

Module DecoderFacts.

Import Str Utf8 Spec Utf8Facts.

(** Every code point that the decoder returns is a scalar value: it never
    returns a surrogate or a code point above U+10FFFF, with either way of
    handling errors. *)
Lemma decode_from_scalar (e : errors) (s : list N) (t : text) :
  (forall ch, In ch s -> ch <= 255) ->
  decode_from e s = inr t -> forallb is_scalar t = true.
Proof.
  revert t. induction s as [s IH] using shorter_induction. intros t Hb.
  destruct s as [|ch s]; [now intros [= <-]|].
  rewrite decode_from_cons.
  decoder_cases_eqn; intros H;
    try (destruct e; [discriminate H|]; unfold on_error in H);
    apply emit_inr in H as (t' & H & ->);
    cbn [forallb]; apply andb_true_intro; split;
    try (injection H as <-; reflexivity);
    try (apply IH in H; [exact H | simpl; lia
                        | intros x Hx; apply Hb; simpl; tauto]);
    try reflexivity;
    try (repeat match goal with
           | c : N |- _ =>
               lazymatch goal with
               | Hc : c <= 255 |- _ => fail
               | _ => assert (c <= 255) by (apply Hb; simpl; tauto)
               end
           end;
         branch_facts; scalar).
Qed.

(** The text is no longer than the input. *)
Lemma decode_from_length (e : errors) (s : list N) (t : text) :
  decode_from e s = inr t -> (List.length t <= List.length s)%nat.
Proof.
  revert t. induction s as [s IH] using shorter_induction. intros t.
  destruct s as [|ch s]; [now intros [= <-]|].
  rewrite decode_from_cons.
  decoder_cases; intros H;
    try (destruct e; [discriminate H|]; unfold on_error in H);
    apply emit_inr in H as (t' & H & ->);
    first [ injection H as <-; simpl; lia
          | apply IH in H; [simpl in *; lia | simpl; lia] ].
Qed.

(** The bytes of a body are below 256. *)
Lemma bytes_bounded (body : list Byte.byte) (ch : N) :
  In ch (map Byte.to_N body) -> ch <= 255.
Proof.
  intros H. apply in_map_iff in H as (b & <- & _). apply Byte.to_N_bounded.
Qed.

End DecoderFacts.

(* ------------------------------------------------------------------ *)
(** * The specification, claim by claim *)

Import Str Dict Logging Werkzeug Flask App Spec.
Import StrFacts DictFacts EnvFacts LoggingFacts AppFacts.
Import RouteFacts HeaderFacts DecoderFacts.







(** C3.  Whatever request [home] is run on (any method, path, header fields
    and body), the text logged for it contains the method and the path. *)
Theorem method_and_path_are_logged (request : Request) (p : process) :
  configured p ->
  contains (logged p (snd (home request p))) (py (method request)) = true
  /\ contains (logged p (snd (home request p))) (path request) = true.
Proof.
  intros Hc.
  destruct (dict_of_headers_returns request) as [d Hd].
  destruct (emitted_home _ _ _ Hc Hd) as (He & _ & _).
  rewrite (logged_configured _ _ Hc), He.
  destruct (records_start request d (get_data_as_text request)) as [rest ->].
  split; apply (contains_concat _ (request_record request));
    try (now left);
    [apply request_record_method | apply request_record_path].
Qed.

Lemma method_and_path_are_logged_witness :
  configured loaded
  /\ contains (logged loaded (snd (home post_request loaded)))
              (py (method post_request)) = true
  /\ contains (logged loaded (snd (home post_request loaded)))
              (path post_request) = true.
Proof.
  split; [reflexivity|].
  apply (method_and_path_are_logged post_request loaded). reflexivity.
Defined.

(** C4.  When the request carries the header field [X-Test: value], the
    dictionary that [home] logs has an entry [X-Test] whose value holds
    [value], and the text logged contains [X-Test] and [value]. *)
Theorem x_test_header_is_logged (request : Request) (p : process) :
  configured p ->
  In ("X-Test", "value")%string (header_fields request) ->
  (exists headers v,
     dict_of_headers request = inr headers
     /\ In ("X-Test"%string, v) headers /\ occurs_in "value" v)
  /\ contains (logged p (snd (home request p))) (py "X-Test") = true
  /\ contains (logged p (snd (home request p))) (py "value") = true.
Proof.
  intros Hc Hin.
  destruct (dict_of_headers_returns request) as [d Hd].
  destruct (dict_of_headers_holds request d "X-Test" "value" Hd Hin
              eq_refl eq_refl) as (v & Hget & Hv); [discriminate|].
  change (shown (cgi "X-Test")) with "X-Test"%string in Hget.
  change (remove_crlf "value") with "value"%string in Hv.
  apply get_In in Hget.
  split; [now exists d, v|].
  destruct (emitted_home _ _ _ Hc Hd) as (He & _ & _).
  rewrite (logged_configured _ _ Hc), He.
  destruct (records_start request d (get_data_as_text request)) as [rest ->].
  pose proof (occurs_in_repr_dict d _ _ Hget) as Hitem.
  split; apply (contains_concat _ (headers_record d));
    try (right; now left);
    apply headers_record_contains;
    apply (fun H => occurs_in_trans _ _ _ H Hitem); unfold repr_item;
    cbn [fst snd].
  - apply occurs_in_app_l. now exists "'"%string, "'"%string.
  - apply occurs_in_app_r, occurs_in_app_r.
    apply occurs_in_repr; [split; reflexivity | exact Hv].
Qed.

Lemma x_test_header_is_logged_witness :
  configured loaded
  /\ In ("X-Test", "value")%string (header_fields post_request)
  /\ contains (logged loaded (snd (home post_request loaded))) (py "X-Test")
     = true
  /\ contains (logged loaded (snd (home post_request loaded))) (py "value")
     = true.
Proof.
  split; [reflexivity | split; [right; now left|]].
  apply (x_test_header_is_logged post_request loaded);
    [reflexivity | right; now left].
Defined.










(** C8, as stated, fails for a GET request and a POST request whose body
    ends before the length announced: both are led to [home] by a method of
    the route, and the one is answered with status 200, the other with
    400. *)
Lemma truncated_post_and_get_differ :
  handled get_request /\ handled truncated_request
  /\ status (fst (serve get_request loaded)) = 200
  /\ status (fst (serve truncated_request loaded)) = 400.
Proof.
  split; [split; [reflexivity | now left]|].
  split; [split; [reflexivity | now right]|].
  split; reflexivity.
Qed.

(** C8, amended.  The answer does not depend on the request when [home]
    returns: what [home] returns is the same dictionary and status for any
    two requests, in any two states of the process, and any two handled
    requests on which [home] returns are sent the same response. *)
Theorem response_is_constant (r1 r2 : Request) (p1 p2 : process) :
  (forall rv1 rv2,
     fst (home r1 p1) = inr rv1 -> fst (home r2 p2) = inr rv2 ->
     rv1 = rv2 /\ rv1 = (ACK, 200))
  /\ (handled r1 -> handled r2 ->
      returns (fst (home r1 p1)) -> returns (fst (home r2 p2)) ->
      fst (serve r1 p1) = fst (serve r2 p2)
      /\ status (fst (serve r1 p1)) = 200
      /\ body (fst (serve r1 p1)) = Json ACK).
Proof.
  split.
  - intros rv1 rv2 H1 H2.
    apply home_returned in H1, H2. now subst.
  - intros H1 H2 Hr1 Hr2.
    rewrite (serve_home r1 p1 H1 Hr1), (serve_home r2 p2 H2 Hr2).
    repeat split.
Qed.

Lemma response_is_constant_witness :
  handled get_request /\ handled post_request
  /\ returns (fst (home get_request fresh))
  /\ returns (fst (home post_request loaded))
  /\ fst (serve get_request fresh) = fst (serve post_request loaded).
Proof.
  assert (Hg : handled get_request) by (split; [reflexivity | now left]).
  assert (Hp : handled post_request) by (split; [reflexivity | now right]).
  assert (Rg : returns (fst (home get_request fresh)))
    by (now exists (ACK, 200)).
  assert (Rp : returns (fst (home post_request loaded)))
    by (now exists (ACK, 200)).
  split; [exact Hg | split; [exact Hp | split; [exact Rg | split;
    [exact Rp|]]]].
  apply (response_is_constant get_request post_request fresh loaded);
    assumption.
Defined.

(** C9, on the code.  The records of a request go to [sys.stderr]:
    [logging.basicConfig(level=logging.INFO)] names no stream, and the
    handler it installs writes to standard error.  Nothing is written to
    [sys.stdout], and the root logger is as it was. *)
Theorem records_go_to_stderr :
  log_stream loaded = stderr
  /\ emitted stdout loaded (snd (serve get_request loaded)) = []
  /\ emitted stderr loaded (snd (serve get_request loaded)) =
       [request_record get_request; headers_record []]
  /\ root (snd (serve get_request loaded)) = root loaded.
Proof. repeat split. Qed.

(** The frame of [home] on every request: whatever the request, and whatever
    had been written before, [home] appends its records to [sys.stderr] and
    leaves [sys.stdout] and the root logger as they were; what it returns
    and what it writes do not depend on what was written before. *)
Lemma home_frame (request : Request) (p : process) :
  configured p ->
  sys_stdout (snd (home request p)) = sys_stdout p
  /\ root (snd (home request p)) = root p
  /\ sys_stderr (snd (home request p)) =
       sys_stderr p ++ emitted stderr loaded (snd (home request loaded))
  /\ fst (home request p) = fst (home request loaded).
Proof.
  intros Hc.
  destruct (dict_of_headers_returns request) as [d Hd].
  destruct (emitted_home _ _ _ configured_loaded Hd) as (-> & _ & _).
  rewrite (home_runs _ _ _ Hd Hc), !home_outcome. repeat split.
Qed.




(* ------------------------------------------------------------------ *)
(** * Further properties of the application *)





(** X3.  An OPTIONS request that the routing leads to the rule of [home] is
    answered by Flask itself, with status 200 and no body: the view is not
    called and nothing is logged. *)
Theorem options_is_answered_by_flask (view : View) (request : Request)
  (p : process) :
  match_request (routed view) request = inr home_rule ->
  method request = "OPTIONS"%string ->
  wsgi_app (routed view) request p = (default_options_response, p)
  /\ serve request p = (default_options_response, p).
Proof.
  intros Hr Hm.
  assert (H : forall v, wsgi_app (routed v) request p
                        = (default_options_response, p)).
  { intros v. unfold wsgi_app.
    rewrite (dispatch_request_routed v request)
      by now rewrite (match_request_view v view).
    now rewrite Hm. }
  split; [apply H | apply (H home)].
Qed.

Lemma options_is_answered_by_flask_witness :
  match_request (routed home) options_request = inr home_rule
  /\ method options_request = "OPTIONS"%string
  /\ serve options_request loaded = (default_options_response, loaded).
Proof.
  split; [reflexivity | split; [reflexivity|]].
  apply (options_is_answered_by_flask home options_request loaded);
    reflexivity.
Defined.

(** X4.  A HEAD request that the routing leads to [home] runs it: the two
    records are logged as for GET, and the answer has status 200 and the
    JSON content type, but no body. *)
Theorem head_runs_home (request : Request) (p : process) :
  configured p ->
  reaches_home request -> method request = "HEAD"%string ->
  exists headers,
    dict_of_headers request = inr headers
    /\ fst (serve request p) = head_acknowledgement
    /\ log_records p (snd (serve request p)) =
         [request_record request; headers_record headers].
Proof.
  intros Hc Hr Hm.
  destruct (dict_of_headers_returns request) as [d Hd].
  exists d. split; [exact Hd|].
  unfold serve, wsgi_app, app.
  rewrite (dispatch_request_routed home request Hr).
  rewrite Hm. cbn [String.eqb Ascii.eqb Bool.eqb]. unfold bind, ret.
  rewrite (home_runs _ _ _ Hd Hc). unfold outcome. rewrite Hm.
  cbn [String.eqb Ascii.eqb Bool.eqb fst snd].
  split; [reflexivity|].
  rewrite (log_records_configured _ _ Hc).
  rewrite (emitted_app stderr p _
             (records request d (get_data_as_text request)))
    by reflexivity.
  apply records_other. rewrite Hm. discriminate.
Qed.

Lemma head_runs_home_witness :
  configured loaded /\ reaches_home head_request
  /\ method head_request = "HEAD"%string
  /\ exists headers,
       dict_of_headers head_request = inr headers
       /\ fst (serve head_request loaded) = head_acknowledgement
       /\ log_records loaded (snd (serve head_request loaded)) =
            [request_record head_request; headers_record headers].
Proof.
  split; [reflexivity | split; [reflexivity | split; [reflexivity|]]].
  apply (head_runs_home head_request loaded); reflexivity.
Defined.

(** X5.  The body is read for POST only: with any other method, the answer
    and everything that is logged are the same whatever the body holds. *)
Theorem body_is_read_for_post_only (request : Request)
  (body : list Byte.byte) (p : process) :
  method request <> "POST"%string ->
  home (with_data request body) p = home request p
  /\ serve (with_data request body) p = serve request p.
Proof.
  intros Hm.
  split; [apply home_reads | apply serve_reads];
    try reflexivity; intros E; contradiction.
Qed.

Lemma body_is_read_for_post_only_witness :
  method get_request <> "POST"%string
  /\ serve (with_data get_request [Byte.xff]) loaded = serve get_request loaded.
Proof.
  assert (Hm : method get_request <> "POST"%string) by discriminate.
  split; [exact Hm|].
  apply (body_is_read_for_post_only get_request [Byte.xff] loaded Hm).
Defined.

(** X6.  The letter case in which the client writes the header names is not
    logged: two requests whose header fields differ in the case of the names
    only get the same answer and the same records. *)
Theorem header_name_case_is_not_logged (request : Request)
  (fs1 fs2 : fields) (p : process) :
  same_fields fs1 fs2 ->
  dict_of_headers (with_fields request fs1)
  = dict_of_headers (with_fields request fs2)
  /\ serve (with_fields request fs1) p = serve (with_fields request fs2) p.
Proof.
  intros H. apply (make_environ_same_fields (request_url request)) in H.
  split; [unfold dict_of_headers, environ;
          cbn [header_fields request_url with_fields]; now rewrite H|].
  apply serve_reads; try reflexivity. exact H.
Qed.

Lemma header_name_case_is_not_logged_witness :
  same_fields [("x-test", "value")]%string [("X-TEST", "value")]%string
  /\ serve (with_fields get_request [("x-test", "value")]%string) loaded
     = serve (with_fields get_request [("X-TEST", "value")]%string) loaded.
Proof.
  assert (H : same_fields [("x-test", "value")]%string
                          [("X-TEST", "value")]%string)
    by (repeat constructor).
  split; [exact H|].
  apply (header_name_case_is_not_logged get_request _ _ loaded H).
Defined.

(** X7.  A header field with an underscore in its name does not reach the
    view: the answer and the records are the same as without the field. *)
Theorem underscore_fields_are_dropped (request : Request) (l1 l2 : fields)
  (name value : string) (p : process) :
  has_char "_" name = true ->
  serve (with_fields request (l1 ++ (name, value) :: l2)) p
  = serve (with_fields request (l1 ++ l2)) p.
Proof.
  intros H. apply serve_reads; try reflexivity.
  now apply make_environ_underscore.
Qed.

Lemma underscore_fields_are_dropped_witness :
  has_char "_" "X_Forwarded_For" = true
  /\ serve (with_fields get_request
              ([("Host"%string, "h"%string)]
               ++ ("X_Forwarded_For"%string, "1.2.3.4"%string) :: []))
           loaded
     = serve (with_fields get_request ([("Host"%string, "h"%string)] ++ []))
             loaded.
Proof.
  split; [reflexivity|].
  apply (underscore_fields_are_dropped get_request); reflexivity.
Defined.

(** X8.  The conversion of [request.headers] to a dictionary loses nothing:
    the dictionary that is logged holds every pair that the headers object
    yields, in the same order, and no two of them under one name. *)
Theorem headers_dictionary_is_lossless (request : Request) :
  dict_of_headers request = inr (items (environ request))
  /\ NoDup (map fst (items (environ request))).
Proof.
  split; [apply dict_of_headers_items | apply dict_of_headers_items_NoDup].
Qed.

(** X9.  The value logged for a header name is the values that the request
    carries under the name, in the order received, joined with commas: for
    a name other than Content-Type and Content-Length that the request
    carries at all, in any letter case.  The Host is left out when the
    request target is an absolute URL: the host of the target is logged
    then. *)
Theorem repeated_values_are_joined (request : Request) (name : string) :
  is_content_key (cgi name) = false ->
  cgi name <> "HOST"%string \/ absolute (request_url request) = false ->
  values_of name (header_fields request) <> [] ->
  exists headers,
    dict_of_headers request = inr headers
    /\ get headers (shown (cgi name))
       = Some (join "," (values_of name (header_fields request))).
Proof.
  intros Hname Hhost Hvalues.
  exists (items (environ request)).
  split; [apply dict_of_headers_items|].
  now apply dict_of_headers_joined.
Qed.

Lemma repeated_values_are_joined_witness :
  is_content_key (cgi "x-tag") = false
  /\ cgi "x-tag" <> "HOST"%string
  /\ values_of "x-tag" (header_fields repeated_request)
     = ["first"; "second"]%string
  /\ exists headers,
       dict_of_headers repeated_request = inr headers
       /\ get headers "X-Tag" = Some "first,second"%string.
Proof.
  assert (Hh : cgi "x-tag" <> "HOST"%string) by discriminate.
  split; [reflexivity | split; [exact Hh | split; [reflexivity|]]].
  apply (repeated_values_are_joined repeated_request "x-tag");
    [reflexivity | now left | discriminate].
Defined.

(** X10.  The record of the headers is one line of printable characters,
    whatever the header fields hold: [repr] escapes every control character,
    so that a header value cannot start a new line of the log. *)
Theorem headers_record_is_one_line (request : Request) (p : process) :
  configured p ->
  exists headers,
    dict_of_headers request = inr headers
    /\ In (py ("INFO:root:Headers: " ++ repr_dict headers) ++ terminator)
          (log_records p (snd (home request p)))
    /\ all_chars is_printable ("INFO:root:Headers: " ++ repr_dict headers)
       = true.
Proof.
  intros Hc.
  destruct (dict_of_headers_returns request) as [d Hd].
  exists d. split; [exact Hd|]. split.
  - rewrite (log_records_configured _ _ Hc).
    destruct (emitted_home _ _ _ Hc Hd) as (-> & _ & _).
    destruct (records_start request d (get_data_as_text request))
      as [rest ->].
    right; left. unfold headers_record, record, format.
    change ("INFO:root:Headers: " ++ repr_dict d)%string
      with ("INFO" ++ ":" ++ "root" ++ ":" ++ "Headers: " ++ repr_dict d)%string.
    rewrite !py_app, <- !app_assoc. reflexivity.
  - rewrite all_chars_app, repr_dict_printable. reflexivity.
Qed.

Lemma headers_record_is_one_line_witness :
  configured loaded
  /\ exists headers,
       dict_of_headers post_request = inr headers
       /\ In (py ("INFO:root:Headers: " ++ repr_dict headers) ++ terminator)
             (log_records loaded (snd (home post_request loaded)))
       /\ all_chars is_printable ("INFO:root:Headers: " ++ repr_dict headers)
          = true.
Proof.
  split; [reflexivity|].
  apply (headers_record_is_one_line post_request loaded). reflexivity.
Defined.

(** X11.  The text that decoding with [errors="replace"] makes of a body is
    well-formed, whatever bytes the body holds: the decoder returns a text,
    every code point of it is a Unicode scalar value (no surrogate, none
    above U+10FFFF), and it has no more code points than the body has
    bytes.  So is every text that [home] logs as a payload. *)
Theorem payload_is_wellformed_text (rv : list Byte.byte) :
  (exists payload,
     Utf8.decode Utf8.replace rv = inr payload
     /\ forallb is_scalar payload = true
     /\ (List.length payload <= List.length rv)%nat)
  /\ (forall request payload,
        get_data_as_text request = inr payload ->
        forallb is_scalar payload = true).
Proof.
  split.
  - destruct (decode_replace_returns rv) as [t Ht].
    exists t. split; [exact Ht|].
    unfold Utf8.decode in Ht. split.
    + apply (decode_from_scalar _ _ _ (bytes_bounded rv) Ht).
    + apply decode_from_length in Ht. now rewrite length_map in Ht.
  - intros request payload. unfold get_data_as_text.
    destruct (get_data request) as [e|rv']; [discriminate|].
    unfold Utf8.decode. intros Ht.
    apply (decode_from_scalar _ _ _ (bytes_bounded rv') Ht).
Qed.



(** X13.  Requests do not interfere.  After any sequence of requests the
    root logger is as the module configured it, nothing has been written to
    [sys.stdout], and [sys.stderr] holds, after what it held, what each
    request writes when it is served alone, in the order of the requests. *)
Theorem requests_do_not_interfere (requests : list Request) (p : process) :
  configured p ->
  root (run requests p) = root p
  /\ sys_stdout (run requests p) = sys_stdout p
  /\ sys_stderr (run requests p) = sys_stderr p ++ flat_map writes requests.
Proof.
  intros Hc. rewrite (run_appends requests p Hc). repeat split.
Qed.

Lemma requests_do_not_interfere_witness :
  configured loaded
  /\ sys_stdout (run [post_request; delete_request; get_request] loaded) = []
  /\ sys_stderr (run [post_request; delete_request; get_request] loaded)
     = writes post_request ++ writes get_request.
Proof.
  split; [reflexivity|].
  destruct (requests_do_not_interfere
              [post_request; delete_request; get_request] loaded
              configured_loaded) as (_ & H1 & H2).
  split; [exact H1|]. rewrite H2. reflexivity.
Defined.

(** X14.  [logging.basicConfig] gives way to a configuration that is there
    already.  When the root logger has a handler before the module is loaded
    and stands above INFO, loading the module changes nothing, and [home]
    writes no record at all; what it returns or raises is what it returns
    or raises under the module's own configuration. *)
Theorem earlier_configuration_is_kept (p0 : process) (request : Request) :
  handlers (root p0) <> [] -> INFO < level (root p0) ->
  basicConfig (Some INFO) None p0 = p0
  /\ snd (home request (basicConfig (Some INFO) None p0)) = p0
  /\ fst (home request (basicConfig (Some INFO) None p0))
     = fst (home request loaded).
Proof.
  intros Hh Hl.
  assert (Hb : basicConfig (Some INFO) None p0 = p0)
    by (unfold basicConfig; destruct (handlers (root p0)); congruence).
  assert (Hinfo : forall msg args, info msg args p0 = p0).
  { intros msg args. unfold info, log.
    destruct (handlers (root p0)); [contradiction|].
    apply N.leb_gt in Hl. cbn [levelno]. now rewrite Hl. }
  split; [exact Hb|]. rewrite Hb.
  split; [|now rewrite !home_outcome].
  unfold home, bind, effect, pure, ret. rewrite !Hinfo.
  destruct (dict_of_headers_returns request) as [d ->]. rewrite !Hinfo.
  destruct (String.eqb (method request) "POST");
    [|now rewrite ?Hinfo].
  destruct (get_data_as_text request); now rewrite ?Hinfo.
Qed.

Lemma earlier_configuration_is_kept_witness :
  handlers (root preconfigured) <> [] /\ INFO < level (root preconfigured)
  /\ home post_request (basicConfig (Some INFO) None preconfigured)
     = (inr (ACK, 200), preconfigured).
Proof.
  assert (Hh : handlers (root preconfigured) <> []) by discriminate.
  assert (Hl : INFO < level (root preconfigured)) by reflexivity.
  split; [exact Hh | split; [exact Hl|]].
  destruct (earlier_configuration_is_kept preconfigured post_request Hh Hl)
    as (_ & H1 & H2).
  rewrite (surjective_pairing (home post_request _)), H1, H2. reflexivity.
Defined.

(** X15.  A POST request that has neither a Content-Length nor a
    Transfer-Encoding field has no body for Werkzeug, whatever the client
    sends after the header: [home] logs an empty payload and returns its
    acknowledgement. *)
Theorem unannounced_body_is_not_read (request : Request) (p : process) :
  configured p ->
  method request = "POST"%string ->
  get (environ request) "HTTP_TRANSFER_ENCODING" = None ->
  get (environ request) "CONTENT_LENGTH" = None ->
  exists headers,
    dict_of_headers request = inr headers
    /\ get_data_as_text request = inr []
    /\ fst (home request p) = inr (ACK, 200)
    /\ log_records p (snd (home request p)) =
         [request_record request; headers_record headers; payload_record []].
Proof.
  intros Hc Hm Hte Hcl.
  destruct (dict_of_headers_returns request) as [d Hd].
  assert (Ht : get_data_as_text request = inr []).
  { unfold get_data_as_text. now rewrite (get_data_unannounced _ Hte Hcl). }
  exists d. split; [exact Hd | split; [exact Ht|]].
  split; [rewrite home_outcome, Ht; unfold outcome; now rewrite Hm|].
  rewrite (log_records_configured _ _ Hc).
  destruct (emitted_home _ _ _ Hc Hd) as (-> & _ & _).
  rewrite Ht. now apply records_post.
Qed.

Lemma unannounced_body_is_not_read_witness :
  configured loaded /\ method unframed_request = "POST"%string
  /\ data unframed_request = Utf8.bytes_of "test-payload"
  /\ log_records loaded (snd (home unframed_request loaded)) =
       [request_record unframed_request;
        headers_record [("Host", "localhost:5000")]%string;
        payload_record []].
Proof.
  split; [reflexivity | split; [reflexivity | split; [reflexivity|]]].
  destruct (unannounced_body_is_not_read unframed_request loaded
              configured_loaded eq_refl eq_refl eq_refl)
    as (headers & Hd & _ & _ & ->).
  vm_compute in Hd. injection Hd as <-. reflexivity.
Defined.



(** X17.  A POST request in chunks whose first line is not a number in base
    16 is a server error: reading the body raises [OSError], which is not an
    HTTP exception, so that Flask logs it through the application's logger
    after the two records of [home] and answers with status 500. *)
Theorem unreadable_chunks_are_a_server_error (request : Request)
  (p : process) :
  configured p ->
  method request = "POST"%string -> reaches_home request ->
  get (environ request) "HTTP_TRANSFER_ENCODING" = Some "chunked"%string ->
  int_16 (strip (string_of_list_byte (fst (readline (data request))))) = None ->
  exists headers chunk,
    dict_of_headers request = inr headers
    /\ fst (home request p) = inl OSError
    /\ fst (serve request p) = error_response 500
    /\ log_records p (snd (serve request p)) =
         [request_record request; headers_record headers; chunk]
    /\ startswith chunk
         (py "ERROR:app:Exception on " ++ path request ++ py " [POST]")
       = true.
Proof.
  intros Hc Hm Hr Hte Hline.
  destruct (dict_of_headers_returns request) as [d Hd].
  assert (Hg : get_data request = inl OSError).
  { unfold get_data, get_input_stream, input_terminated, get_str.
    rewrite Hte. change (String.eqb (lower (strip "chunked")) "chunked")
      with true. cbv iota.
    unfold DechunkedInput. cbn [read_chunks].
    destruct (readline (data request)) as [line rest].
    unfold read_chunk_len. cbn [fst] in Hline. now rewrite Hline. }
  assert (Ht : get_data_as_text request = inl OSError)
    by (unfold get_data_as_text; now rewrite Hg).
  assert (Hh : fst (home request p) = inl OSError)
    by (rewrite home_outcome, Ht; unfold outcome; now rewrite Hm).
  exists d, (exception_record request).
  split; [exact Hd | split; [exact Hh|]].
  unfold serve, app.
  rewrite (wsgi_app_home home request p Hr) by now rewrite Hm.
  rewrite (home_runs _ _ _ Hd Hc) in *. cbn [fst] in Hh. rewrite Hh.
  cbn [code fst snd]. split; [reflexivity|].
  rewrite log_exception_configured by exact Hc.
  rewrite (log_records_configured _ _ Hc).
  split.
  - rewrite (emitted_app stderr p _
               (records request d (get_data_as_text request)
                ++ [exception_record request])).
    + now rewrite Ht, records_raised.
    + unfold write. cbn [written sys_stderr]. now rewrite <- app_assoc.
  - unfold exception_record, format. rewrite Hm.
    change (py "ERROR" ++ py ":" ++ py "app" ++ py ":"
            ++ (py "Exception on " ++ path request ++ py " [" ++ py "POST"
                ++ py "]"))
      with (py "ERROR:app:Exception on "
            ++ (path request ++ py " [POST" ++ py "]")).
    rewrite <- !app_assoc.
    change (py " [POST" ++ py "]" ++ terminator)
      with (py " [POST]" ++ terminator).
    rewrite (app_assoc (path request)), (app_assoc (py "ERROR:app:Exception on ")).
    apply startswith_app.
Qed.

Lemma unreadable_chunks_are_a_server_error_witness :
  configured loaded /\ method bad_chunk_request = "POST"%string
  /\ reaches_home bad_chunk_request
  /\ fst (home bad_chunk_request loaded) = inl OSError
  /\ fst (serve bad_chunk_request loaded) = error_response 500.
Proof.
  split; [reflexivity | split; [reflexivity | split; [reflexivity|]]].
  destruct (unreadable_chunks_are_a_server_error bad_chunk_request loaded
              configured_loaded eq_refl eq_refl eq_refl eq_refl)
    as (headers & chunk & _ & H1 & H2 & _).
  split; [exact H1 | exact H2].
Defined.


(** X19.  When the request target is an absolute URL, the Host that is
    logged is the host of the target, whatever the Host field says. *)
Theorem absolute_target_names_the_host (request : Request) (p : process) :
  configured p ->
  absolute (request_url request) = true ->
  exists headers,
    dict_of_headers request = inr headers
    /\ get headers "Host" = Some (netloc (request_url request))
    /\ In (headers_record headers) (log_records p (snd (home request p))).
Proof.
  intros Hc Ha.
  exists (items (environ request)).
  pose proof (dict_of_headers_items request) as Hd.
  split; [exact Hd | split; [now apply dict_of_headers_host|]].
  rewrite (log_records_configured _ _ Hc).
  destruct (emitted_home _ _ _ Hc Hd) as (-> & _ & _).
  destruct (records_start request (items (environ request))
              (get_data_as_text request)) as [rest ->].
  right; now left.
Qed.

Lemma absolute_target_names_the_host_witness :
  configured loaded
  /\ absolute (request_url absolute_request) = true
  /\ In ("Host", "localhost:5000")%string (header_fields absolute_request)
  /\ dict_of_headers absolute_request = inr [("Host", "example.org")]%string
  /\ exists headers,
       dict_of_headers absolute_request = inr headers
       /\ get headers "Host" = Some "example.org"%string.
Proof.
  split; [reflexivity | split; [reflexivity | split; [now left|]]].
  split; [reflexivity|].
  destruct (absolute_target_names_the_host absolute_request loaded
              configured_loaded eq_refl) as (headers & Hd & Hg & _).
  now exists headers.
Defined.

